(** * Resilience module of youtube-mcp-remote (resilience.ts)

    A shallow embedding of the tool-handler wrapper: health state persisted
    in [DATA_DIR/tool-health.json], failure counting, degradation at
    [FAILURE_THRESHOLD], n8n alerting, and the [withResilience] fallback loop.

    The code is effectful (file system, clock, network, exceptions, awaited
    promises).  Effects are threaded through an explicit [World]; a
    computation either completes normally, throws, or stays pending on an
    awaited promise that never settles. *)

From stdpp Require Import gmap strings pretty.

Local Open Scope string_scope.

(* ------------------------------------------------------------------------- *)
(** ** Config *)
(* ------------------------------------------------------------------------- *)

(** [N8N_ALERT_WEBHOOK_URL] and [SERVER_URL] are read once from
    [process.env] when the module is loaded (with [|| ""]); [DATA_DIR] and
    [HEALTH_FILE] only name the directory and the file of the [World]. *)
Record Config := {
  N8N_ALERT_WEBHOOK_URL : string;
  SERVER_URL : string
}.

Definition FAILURE_THRESHOLD : nat := 3.

(* ------------------------------------------------------------------------- *)
(** ** Types *)
(* ------------------------------------------------------------------------- *)

(** [interface HandlerHealth].  [failures] is a JS number that the module only
    ever sets to 0 or increments by one, so it is a natural number (exact in a
    double far beyond any reachable count).  The two optional fields are
    absent ([None]) until the first failure. *)
Record HandlerHealth := {
  failures : nat;
  degraded : bool;
  lastError : option string;
  lastFailure : option string
}.

(** [type HealthState = Record<string, HandlerHealth>].  Every key the module
    uses has the form [tool:handler], so no key meets a property inherited
    from [Object.prototype]. *)
Abbreviation HealthState := (gmap string HandlerHealth).

(** A thrown value the module can turn into a message,
    [err instanceof Error ? err.message : String(err)]: an [Error] with its
    message, or another value with what [String] makes of it. *)
Inductive JsError :=
| ErrorObj (message : string)
| Thrown (str : string).

(** What a [catch] clause can bind: a value as above, or a value [String]
    cannot convert (an object without prototype, say), on which
    [String(err)] throws a [TypeError]. *)
Inductive Caught :=
| Printable (e : JsError)
| Unprintable.
Coercion Printable : JsError >-> Caught.

(** A handler result, as far as the module looks at it:
    [typeof result === "string" ? result : JSON.stringify(result, null, 2)]. *)
Inductive JsValue :=
| VString (s : string)
| VJson (text : string)
| VCyclic (reason : string)
| VUndefined.

(** What the promise returned by [handler.fn(args)] does: it resolves, it
    rejects with a value that has a message, it rejects with a value that has
    no string conversion, or it never settles.  The four constructors of
    [JsValue] are: a string; a value [JSON.stringify] turns into [text]; a
    value it throws on (cyclic, BigInt); a value it maps to [undefined]
    ([undefined], a function, a symbol). *)
Inductive Settled :=
| Resolves (v : JsValue)
| Rejects (e : JsError)
| RejectsUnprintable
| NeverSettles.

(** [interface Handler<T>]. *)
Record Handler (T : Type) := {
  name : string;
  fn : T -> Settled
}.
Arguments name {T} _.
Arguments fn {T} _ _.

(** The [text] of an entry of [content]: a string, or [undefined] when
    [JSON.stringify] returned [undefined]. *)
Inductive Text :=
| Str (s : string)
| Undefined.
Coercion Str : string >-> Text.

(** In a list whose type is known the elements are read at that type, so that
    a string stands for itself as a [Text]. *)
Arguments cons {A} & _ _.

(** [interface McpContent]: every entry of [content] is
    [{ type: "text", text }], kept as its [text]. *)
Record McpContent := { content : list Text }.

(* ------------------------------------------------------------------------- *)
(** ** The world outside the module *)
(* ------------------------------------------------------------------------- *)

(** What [HEALTH_FILE] holds.  [JSON.parse (JSON.stringify state)] gives the
    state back, so a written file is kept as the state itself.  The module
    writes nothing else to the file; a file put there by other means that
    parses to something else than an object of records ([null], a number) is
    not represented. *)
Inductive FileContent :=
| Missing
| Corrupt
| Stored (s : HealthState).

(** What the promise returned by [fetch] does. *)
Inductive FetchOutcome :=
| FetchResolves
| FetchRejects (e : JsError)
| FetchPending.

(** Body of the alert POST. *)
Record AlertPayload := {
  tool : string;
  error : string;
  failureCount : nat;
  timestamp : string;
  serverUrl : string
}.

(** Observable actions, most recent first in [log]. *)
Inductive Event :=
| EvCall (handlerName : string)
| EvMkdir
| EvWrite (s : HealthState)
| EvPost (url : string) (body : AlertPayload)
| EvConsoleError (label : string) (err : Caught).

(** - [fs_faults]: what the next [mkdirSync]/[writeFileSync] calls do,
      [Some msg] = throws [Error(msg)], [None] or exhausted = succeeds;
    - [net]: what the next [fetch] calls do, exhausted = resolve;
    - [clock k]: the ISO string the [k]-th [new Date()] renders to. *)
Record World := {
  dir_exists : bool;
  file : FileContent;
  fs_faults : list (option string);
  net : list FetchOutcome;
  clock : nat -> string;
  ticks : nat;
  log : list Event
}.

Definition set_dir_exists (b : bool) (w : World) : World :=
  {| dir_exists := b; file := file w; fs_faults := fs_faults w; net := net w;
     clock := clock w; ticks := ticks w; log := log w |}.
Definition set_file (f : FileContent) (w : World) : World :=
  {| dir_exists := dir_exists w; file := f; fs_faults := fs_faults w; net := net w;
     clock := clock w; ticks := ticks w; log := log w |}.
Definition set_fs_faults (l : list (option string)) (w : World) : World :=
  {| dir_exists := dir_exists w; file := file w; fs_faults := l; net := net w;
     clock := clock w; ticks := ticks w; log := log w |}.
Definition set_net (l : list FetchOutcome) (w : World) : World :=
  {| dir_exists := dir_exists w; file := file w; fs_faults := fs_faults w; net := l;
     clock := clock w; ticks := ticks w; log := log w |}.
Definition set_ticks (n : nat) (w : World) : World :=
  {| dir_exists := dir_exists w; file := file w; fs_faults := fs_faults w; net := net w;
     clock := clock w; ticks := n; log := log w |}.
Definition emit (e : Event) (w : World) : World :=
  {| dir_exists := dir_exists w; file := file w; fs_faults := fs_faults w; net := net w;
     clock := clock w; ticks := ticks w; log := e :: log w |}.

(* ------------------------------------------------------------------------- *)
(** ** Computations: state, exceptions, awaited promises *)
(* ------------------------------------------------------------------------- *)

Inductive Completion (A : Type) :=
| Normal (a : A)
| Throw (e : Caught)
| Pending.
Arguments Normal {A} _.
Arguments Throw {A} _.
Arguments Pending {A}.

Definition M (A : Type) : Type := World -> Completion A * World.

Definition ret {A} (a : A) : M A := fun w => (Normal a, w).

Definition throw {A} (e : Caught) : M A := fun w => (Throw e, w).

Definition bind {A B} (m : M A) (k : A -> M B) : M B := fun w =>
  match m w with
  | (Normal a, w') => k a w'
  | (Throw e, w') => (Throw e, w')
  | (Pending, w') => (Pending, w')
  end.

(** [try { body } catch (err) { handler }]. *)
Definition try_catch {A} (body : M A) (handler : Caught -> M A) : M A := fun w =>
  match body w with
  | (Throw e, w') => handler e w'
  | r => r
  end.

Declare Scope js_scope.
Delimit Scope js_scope with js.
Notation "x <- c1 ;; c2" := (bind c1 (fun x => c2))
  (at level 100, c1 at next level, right associativity) : js_scope.
Notation "c1 ;; c2" := (bind c1 (fun _ => c2))
  (at level 100, right associativity) : js_scope.
Local Open Scope js_scope.

(* ------------------------------------------------------------------------- *)
(** ** Primitives of the platform *)
(* ------------------------------------------------------------------------- *)

(** A file-system call that changes the disk: consults the next fault. *)
Definition fs_call (ev : Event) (effect : World -> World) : M unit := fun w =>
  match fs_faults w with
  | Some msg :: rest => (Throw (ErrorObj msg), set_fs_faults rest w)
  | None :: rest => (Normal tt, emit ev (effect (set_fs_faults rest w)))
  | [] => (Normal tt, emit ev (effect w))
  end.

Definition existsSync_DATA_DIR : M bool := fun w => (Normal (dir_exists w), w).

Definition mkdirSync_DATA_DIR : M unit := fs_call EvMkdir (set_dir_exists true).

Definition writeFileSync_HEALTH_FILE (state : HealthState) : M unit :=
  fs_call (EvWrite state) (set_file (Stored state)).

(** [new Date().toISOString()]. *)
Definition now_ISO : M string := fun w =>
  (Normal (clock w (ticks w)), set_ticks (S (ticks w)) w).

(** [await fetch(url, { method: "POST", ..., body })]. *)
Definition await_fetch (url : string) (body : AlertPayload) : M unit := fun w =>
  match net w with
  | FetchRejects e :: rest => (Throw e, emit (EvPost url body) (set_net rest w))
  | FetchPending :: rest => (Pending, emit (EvPost url body) (set_net rest w))
  | FetchResolves :: rest => (Normal tt, emit (EvPost url body) (set_net rest w))
  | [] => (Normal tt, emit (EvPost url body) w)
  end.

Definition console_error (label : string) (err : Caught) : M unit := fun w =>
  (Normal tt, emit (EvConsoleError label err) w).

(** [await handler.fn(args)]. *)
Definition await_fn {T} (handler : Handler T) (args : T) : M JsValue := fun w =>
  match fn handler args with
  | Resolves v => (Normal v, emit (EvCall (name handler)) w)
  | Rejects e => (Throw e, emit (EvCall (name handler)) w)
  | RejectsUnprintable => (Throw Unprintable, emit (EvCall (name handler)) w)
  | NeverSettles => (Pending, emit (EvCall (name handler)) w)
  end.

(** [typeof result === "string" ? result : JSON.stringify(result, null, 2)];
    [JSON.stringify] throws a [TypeError] on a cyclic value or a BigInt and
    returns [undefined] for [undefined], a function or a symbol. *)
Definition render (result : JsValue) : M Text :=
  match result with
  | VString s => ret (Str s)
  | VJson text => ret (Str text)
  | VCyclic reason => throw (ErrorObj reason)
  | VUndefined => ret Undefined
  end.

(** [err instanceof Error ? err.message : String(err)]. *)
Definition message_of (err : JsError) : string :=
  match err with
  | ErrorObj m => m
  | Thrown s => s
  end.

(* ------------------------------------------------------------------------- *)
(** ** State persistence *)
(* ------------------------------------------------------------------------- *)

Definition ensureDataDir : M unit :=
  b <- existsSync_DATA_DIR ;;
  if negb b then mkdirSync_DATA_DIR else ret tt.

(** A missing or unparsable file is caught and read as [{}]. *)
Definition loadHealth : M HealthState := fun w =>
  match file w with
  | Stored s => (Normal s, w)
  | Missing | Corrupt => (Normal ∅, w)
  end.

Definition saveHealth (state : HealthState) : M unit :=
  ensureDataDir ;;
  writeFileSync_HEALTH_FILE state.

(* ------------------------------------------------------------------------- *)
(** ** Health helpers *)
(* ------------------------------------------------------------------------- *)

Definition healthy : HandlerHealth :=
  {| failures := 0; degraded := false; lastError := None; lastFailure := None |}.

Definition getHandler (state : HealthState) (key : string) : HandlerHealth :=
  default healthy (state !! key).

Definition key_of (toolName handlerName : string) : string :=
  toolName +:+ ":" +:+ handlerName.

Definition recordSuccess (toolName handlerName : string) : M unit :=
  let key := key_of toolName handlerName in
  state <- loadHealth ;;
  saveHealth (<[key := healthy]> state).

Definition recordFailure (toolName handlerName error : string) : M bool :=
  let key := key_of toolName handlerName in
  state <- loadHealth ;;
  let h := getHandler state key in
  stamp <- now_ISO ;;
  let failures' := failures h + 1 in
  let degraded' := if (FAILURE_THRESHOLD <=? failures')%nat then true else degraded h in
  let h' := {| failures := failures'; degraded := degraded';
               lastError := Some error; lastFailure := Some stamp |} in
  saveHealth (<[key := h']> state) ;;
  ret (degraded h').

Definition isDegraded (toolName handlerName : string) : M bool :=
  let key := key_of toolName handlerName in
  state <- loadHealth ;;
  ret (degraded (getHandler state key)).

Definition resetTool (toolName handlerName : string) : M unit :=
  let key := key_of toolName handlerName in
  state <- loadHealth ;;
  saveHealth (<[key := healthy]> state).

(* ------------------------------------------------------------------------- *)
(** ** N8n alerting *)
(* ------------------------------------------------------------------------- *)

Definition alertN8n (cfg : Config) (tool error : string) (failureCount : nat) : M unit :=
  if String.eqb (N8N_ALERT_WEBHOOK_URL cfg) "" then ret tt
  else
    try_catch
      (stamp <- now_ISO ;;
       await_fetch (N8N_ALERT_WEBHOOK_URL cfg)
         {| tool := tool; error := error; failureCount := failureCount;
            timestamp := stamp; serverUrl := SERVER_URL cfg |})
      (fun err => console_error "[resilience] Failed to alert n8n:" err).

(* ------------------------------------------------------------------------- *)
(** ** Core wrapper *)
(* ------------------------------------------------------------------------- *)

(** The double quote of the two message templates. *)
Definition dquote : string := String (Ascii.ascii_of_nat 34) EmptyString.

Definition disabled_text (toolName : string) : string :=
  "[DISABLED] Tool " +:+ dquote +:+ toolName +:+ dquote +:+
  " is temporarily disabled — all handlers are degraded. Use resetTool() to re-enable.".

(** [lastError instanceof Error ? lastError.message : String(lastError)];
    [lastError] is [undefined] until a handler has failed. *)
Definition error_text (toolName : string) (lastError : option JsError) : string :=
  let errorText :=
    match lastError with
    | Some err => message_of err
    | None => "undefined"
    end in
  "[ERROR] Tool " +:+ dquote +:+ toolName +:+ dquote +:+ " failed: " +:+ errorText.

(** How one pass through the body of the [for] loop ends: at [continue] or at
    the end of the [catch] block (with the value [lastError] then has), or at
    the [return] of the [try] block.  [lastError] is assigned after
    [errorMsg] has been computed, so it only ever holds a value that has a
    message. *)
Inductive Step :=
| Continue (lastError : option JsError)
| Return (r : McpContent).

Section Wrapper.
Context {T : Type}.
Variable cfg : Config.
Variable toolName : string.
Variable handlers : list (Handler T).
Variable args : T.

Definition allDegraded (state : HealthState) : bool :=
  forallb (fun h => degraded (getHandler state (key_of toolName (name h)))) handlers.

(** The body of the loop at index [i], [handler = handlers[i]].  [state] is
    the snapshot loaded at the start of the call. *)
Definition iteration (state : HealthState) (i : nat) (handler : Handler T)
    (lastError : option JsError) : M Step :=
  let key := key_of toolName (name handler) in
  let health := getHandler state key in
  let hasFallback := (i <? length handlers - 1)%nat in
  if degraded health && hasFallback then ret (Continue lastError)
  else
    try_catch
      (result <- await_fn handler args ;;
       recordSuccess toolName (name handler) ;;
       text <- render result ;;
       ret (Return {| content := [text] |}))
      (fun err =>
         match err with
         | Unprintable => throw (ErrorObj "Cannot convert object to primitive value")
         | Printable e =>
             let errorMsg := message_of e in
             nowDegraded <- recordFailure toolName (name handler) errorMsg ;;
             (if nowDegraded : bool
              then alertN8n cfg (key_of toolName (name handler)) errorMsg FAILURE_THRESHOLD
              else ret tt) ;;
             ret (Continue (Some e))
         end).

(** [for (let i = ...; i < handlers.length; i++)] from index [i] on, [rest]
    being the handlers from [i] on, followed by the code after the loop. *)
Fixpoint loop (state : HealthState) (i : nat) (rest : list (Handler T))
    (lastError : option JsError) : M McpContent :=
  match rest with
  | [] => ret {| content := [error_text toolName lastError] |}
  | handler :: rest' =>
      step <- iteration state i handler lastError ;;
      match step with
      | Return r => ret r
      | Continue lastError' => loop state (S i) rest' lastError'
      end
  end.

(** The function [withResilience(toolName, handlers)] returns, applied to
    [args]. *)
Definition withResilience : M McpContent :=
  state <- loadHealth ;;
  if allDegraded state
  then ret {| content := [disabled_text toolName] |}
  else loop state 0 handlers None.

(** The [catch] block of the loop body, for a caught value that has a
    message. *)
Definition catch_block (handler : Handler T) (err : JsError) : M Step :=
  nowDegraded <- recordFailure toolName (name handler) (message_of err) ;;
  (if nowDegraded : bool
   then alertN8n cfg (key_of toolName (name handler)) (message_of err) FAILURE_THRESHOLD
   else ret tt) ;;
  ret (Continue (Some err)).

(** The whole [catch] clause: computing [errorMsg] throws on a value with no
    string conversion, before anything is recorded. *)
Definition catch_clause (handler : Handler T) (err : Caught) : M Step :=
  match err with
  | Unprintable => throw (ErrorObj "Cannot convert object to primitive value")
  | Printable e => catch_block handler e
  end.

End Wrapper.

(* ------------------------------------------------------------------------- *)
(** ** Observations used in the statements *)
(* ------------------------------------------------------------------------- *)

(** The health state a [loadHealth] sees in [w]. *)
Definition health_on_disk (w : World) : HealthState :=
  match file w with
  | Stored s => s
  | Missing | Corrupt => ∅
  end.

(** Names of the handlers invoked, most recent first. *)
Fixpoint calls (l : list Event) : list string :=
  match l with
  | [] => []
  | EvCall n :: l' => n :: calls l'
  | _ :: l' => calls l'
  end.

(** Alerts POSTed, most recent first. *)
Fixpoint posts (l : list Event) : list AlertPayload :=
  match l with
  | [] => []
  | EvPost _ b :: l' => b :: posts l'
  | _ :: l' => posts l'
  end.


(** No pending [fetch] ahead. *)
Definition fetches_settle (w : World) : bool :=
  forallb (fun o => match o with FetchPending => false | _ => true end) (net w).

(** The world after a [saveHealth state] in which nothing throws. *)
Definition saved (state : HealthState) (w : World) : World :=
  emit (EvWrite state)
    (set_file (Stored state)
       (if dir_exists w then w else emit EvMkdir (set_dir_exists true w))).

(** The record [recordFailure] stores over [h]. *)
Definition failed (h : HandlerHealth) (error stamp : string) : HandlerHealth :=
  {| failures := failures h + 1;
     degraded := if (FAILURE_THRESHOLD <=? failures h + 1)%nat then true else degraded h;
     lastError := Some error; lastFailure := Some stamp |}.

(** The body [alertN8n] POSTs in [w]. *)
Definition alert_body (cfg : Config) (tool error : string) (n : nat) (w : World)
  : AlertPayload :=
  {| tool := tool; error := error; failureCount := n;
     timestamp := clock w (ticks w); serverUrl := SERVER_URL cfg |}.

(** Consecutive failures of one handler, one [recordFailure] per error
    message and nothing in between; returns the flag each call returned. *)
Fixpoint failures_in_a_row (toolName handlerName : string) (errors : list string)
  : M (list bool) :=
  match errors with
  | [] => ret []
  | error :: errors' =>
      nowDegraded <- recordFailure toolName handlerName error ;;
      flags <- failures_in_a_row toolName handlerName errors' ;;
      ret (nowDegraded :: flags)
  end.

(** A world for examples: data directory present, given file content, no
    fault ahead. *)
Definition world_with (f : FileContent) : World :=
  {| dir_exists := true; file := f; fs_faults := []; net := [];
     clock := fun k => "2026-02-25T00:00:0" +:+ pretty k +:+ ".000Z";
     ticks := 0; log := [] |}.

Definition cfg_alerting : Config :=
  {| N8N_ALERT_WEBHOOK_URL := "https://n8n.example/webhook/alert";
     SERVER_URL := "https://youtube-mcp.example" |}.

Definition always {T} (n : string) (r : Settled) : Handler T :=
  {| name := n; fn := fun _ => r |}.


(** The function returned by [withResilience], called once per argument. *)
Fixpoint facade_calls {T} (cfg : Config) (toolName : string)
    (handlers : list (Handler T)) (argss : list T) : M (list McpContent) :=
  match argss with
  | [] => ret []
  | args :: argss' =>
      r <- withResilience cfg toolName handlers args ;;
      rs <- facade_calls cfg toolName handlers argss' ;;
      ret (r :: rs)
  end.

(* ------------------------------------------------------------------------- *)
(** ** Concrete handlers and worlds *)
(* ------------------------------------------------------------------------- *)

Definition degraded_record : HandlerHealth :=
  {| failures := 3; degraded := true;
     lastError := Some "quota exceeded";
     lastFailure := Some "2026-02-24T10:00:00.000Z" |}.

Definition two_failures : HandlerHealth :=
  {| failures := 2; degraded := false;
     lastError := Some "quota exceeded";
     lastFailure := Some "2026-02-24T10:00:00.000Z" |}.

(** One handler that would succeed. *)
Definition sole_ok : list (Handler unit) :=
  [always "primary" (Resolves (VString "ok"))].

(** One handler that fails. *)
Definition sole_failing : list (Handler unit) :=
  [always "primary" (Rejects (ErrorObj "quota exceeded"))].

(** Three handlers. *)
Definition three_tiers : list (Handler unit) :=
  [always "suggestEndpoint" (Resolves (VString "ok"));
   always "dataApiSearch" (Resolves (VJson "[]"));
   always "webScrape" (Rejects (ErrorObj "layout changed"))].

Definition three_degraded : HealthState :=
  {[ "search:suggestEndpoint" := degraded_record;
     "search:dataApiSearch" := degraded_record;
     "search:webScrape" := degraded_record ]}.

(** A primary that fails on every call but the third, and a fallback that
    always fails; the argument is the number of the call. *)
Definition flaky_pair : list (Handler nat) :=
  [ {| name := "primary";
       fn := fun call => if (call =? 3)%nat then Resolves (VString "ok")
                         else Rejects (ErrorObj "quota exceeded") |};
    always "scrape" (Rejects (ErrorObj "layout changed")) ].

(** The health file cannot be written. *)
Definition world_readonly : World :=
  set_fs_faults [Some "EACCES: permission denied, open '/data/tool-health.json'"]
    (world_with Missing).

(** The primary has failed twice; the webhook accepts the connection and
    never answers. *)
Definition world_webhook_silent : World :=
  set_net [FetchPending] (world_with (Stored {[ "search:primary" := two_failures ]})).

(** Same, with a webhook that answers. *)
Definition world_webhook_answers : World :=
  set_net [FetchResolves] (world_with (Stored {[ "search:primary" := two_failures ]})).

(** Five calls of the facade over [flaky_pair], from an empty health file. *)
Definition five_calls : Completion (list McpContent) * World :=
  facade_calls cfg_alerting "search" flaky_pair [1; 2; 3; 4; 5] (world_with Missing).

(** Only the last tier is degraded. *)
Definition scrape_degraded : HealthState :=
  {[ "search:webScrape" := degraded_record ]}.

(** Only the first tier is degraded. *)
Definition suggest_degraded : HealthState :=
  {[ "search:suggestEndpoint" := degraded_record ]}.

(* ------------------------------------------------------------------------- *)
(** ** Observations on whole calls *)
(* ------------------------------------------------------------------------- *)


(** The keys under which a call for [toolName] over [handlers] keeps health. *)
Definition keys_of {T} (toolName : string) (handlers : list (Handler T)) : list string :=
  map (fun h => key_of toolName (name h)) handlers.


(** In every record the flag follows the counter. *)
Definition consistent (state : HealthState) : Prop :=
  ∀ key h, state !! key = Some h →
    degraded h = (FAILURE_THRESHOLD <=? failures h)%nat.

(** What one write of [recordSuccess] or [recordFailure] does to the health
    state, for a key among [keys]. *)
Inductive health_step (keys : list string) : HealthState → HealthState → Prop :=
| step_success state key :
    key ∈ keys → health_step keys state (<[key := healthy]> state)
| step_failure state key error stamp :
    key ∈ keys →
    health_step keys state (<[key := failed (getHandler state key) error stamp]> state).

(** No [":"] in a name. *)
Fixpoint colon_free (s : string) : bool :=
  match s with
  | EmptyString => true
  | String c s' => negb (Ascii.eqb c (Ascii.ascii_of_nat 58)) && colon_free s'
  end.

(** The counter of [p] after a call in which [p] rejects: one more, unless
    [p] is degraded in [state] and was passed over. *)
Definition bumped {T} (toolName : string) (state : HealthState) (p : Handler T) : nat :=
  (failures (getHandler state (key_of toolName (name p)))
   + (if degraded (getHandler state (key_of toolName (name p))) then 0 else 1))%nat.

(* ------------------------------------------------------------------------- *)
(** ** discovery-tools.ts: the CSV helpers of [findOutlierChannels] *)
(* ------------------------------------------------------------------------- *)

(** Strings are sequences of code units; the two helpers only ever compare a
    unit with the double quote and with the comma. *)
Definition quote_char : Ascii.ascii := Ascii.ascii_of_nat 34.
Definition comma_char : Ascii.ascii := Ascii.ascii_of_nat 44.

(** The [val.replace] of [csvEscape]: every double quote is doubled. *)
Fixpoint double_quotes (val : string) : string :=
  match val with
  | EmptyString => EmptyString
  | String c rest =>
      if Ascii.eqb c quote_char
      then String quote_char (String quote_char (double_quotes rest))
      else String c (double_quotes rest)
  end.

(** [csvEscape]: wrap in quotes, double the internal quotes. *)
Definition csvEscape (val : string) : string :=
  dquote +:+ double_quotes val +:+ dquote.

(** The loop of [parseCSVLine] from index [i] on, [line] being what is left
    of the line from [i]; [i++] inside the body skips the second quote of an
    escaped pair; after the loop [current] is pushed. *)
Fixpoint parse_from (line : string) (result : list string) (current : string)
    (inQuotes : bool) : list string :=
  match line with
  | EmptyString => result ++ [current]
  | String ch rest =>
      if inQuotes then
        if Ascii.eqb ch quote_char then
          match rest with
          | String next rest' =>
              if Ascii.eqb next quote_char
              then parse_from rest' result (current +:+ dquote) true
              else parse_from rest result current false
          | EmptyString => parse_from rest result current false
          end
        else parse_from rest result (current +:+ String ch EmptyString) true
      else
        if Ascii.eqb ch quote_char then parse_from rest result current true
        else if Ascii.eqb ch comma_char
             then parse_from rest (result ++ [current]) EmptyString false
             else parse_from rest result (current +:+ String ch EmptyString) false
  end.

Definition parseCSVLine (line : string) : list string :=
  parse_from line [] EmptyString false.

(** A field as [findOutliersHandler] writes it into a row: interpolated as it
    is (timestamp, channelId, numbers) or through [csvEscape] (niche,
    channelName). *)
Inductive Cell :=
| Raw (text : string)
| Escaped (val : string).

Definition cell_text (c : Cell) : string :=
  match c with
  | Raw text => text
  | Escaped val => csvEscape val
  end.

Definition cell_value (c : Cell) : string :=
  match c with
  | Raw text => text
  | Escaped val => val
  end.

(** Neither a double quote nor a comma in the text. *)
Fixpoint plain (s : string) : bool :=
  match s with
  | EmptyString => true
  | String c s' =>
      negb (Ascii.eqb c quote_char) && negb (Ascii.eqb c comma_char) && plain s'
  end.

Definition cell_ok (c : Cell) : bool :=
  match c with
  | Raw text => plain text
  | Escaped _ => true
  end.

(** No double quote in the text. *)
Fixpoint quote_free (s : string) : bool :=
  match s with
  | EmptyString => true
  | String c s' => negb (Ascii.eqb c quote_char) && quote_free s'
  end.

(** Number of commas in a line. *)
Fixpoint commas (s : string) : nat :=
  match s with
  | EmptyString => 0
  | String c s' => (if Ascii.eqb c comma_char then 1 else 0) + commas s'
  end.

(* ------------------------------------------------------------------------- *)
(** ** trim.ts: [trimResponse], applied by the handlers to API responses *)
(* ------------------------------------------------------------------------- *)

(** A value as [JSON.parse] returns it ([ytFetch] returns [res.json()]).
    Numbers are kept abstract; an object is its own entries in the order of
    [Object.entries]. *)
#[local] Unset Elimination Schemes.
Inductive Json (N : Type) : Type :=
| JNull
| JBool (b : bool)
| JNumber (n : N)
| JString (s : string)
| JArray (items : list (Json N))
| JObject (entries : list (string * Json N)).
Arguments JNull {N}.
Arguments JBool {N} _.
Arguments JNumber {N} _.
Arguments JString {N} _.
Arguments JArray {N} _.
Arguments JObject {N} _.
#[local] Set Elimination Schemes.

Definition STRIP_KEYS : list string :=
  [ "etag"; "kind"; "pageInfo"; "nextPageToken"; "prevPageToken";
    "localized"; "regionRestriction"; "contentRating";
    "recordingDetails"; "fileDetails"; "processingDetails"; "suggestions" ].

Definition KEEP_THUMBS : list string := [ "medium" ].

(** [STRIP_KEYS.has(key)]. *)
Definition strip_has (key : string) : bool :=
  existsb (String.eqb key) STRIP_KEYS.

Section Trim.
Context {N : Type}.

(** Whether a number is truthy (neither zero nor NaN). *)
Variable nonzero : N -> bool.

(** [typeof value === "object" && value !== null]: arrays and objects. *)
Definition is_object (value : Json N) : bool :=
  match value with
  | JArray _ | JObject _ => true
  | _ => false
  end.

(** [thumbs[size]] for a size of [KEEP_THUMBS]: the own entry of an object;
    an array has no such property. *)
Fixpoint get_entry (entries : list (string * Json N)) (size : string) : option (Json N) :=
  match entries with
  | [] => None
  | (key, value) :: entries' =>
      if String.eqb key size then Some value else get_entry entries' size
  end.

Definition get_prop (thumbs : Json N) (size : string) : option (Json N) :=
  match thumbs with
  | JObject entries => get_entry entries size
  | _ => None
  end.

(** Truthiness of [thumbs[size]]; [None] is [undefined]. *)
Definition truthy (v : option (Json N)) : bool :=
  match v with
  | None => false
  | Some JNull => false
  | Some (JBool b) => b
  | Some (JNumber n) => nonzero n
  | Some (JString s) => negb (String.eqb s "")
  | Some (JArray _) | Some (JObject _) => true
  end.

(** The entries of [kept] after the loop over [KEEP_THUMBS]. *)
Definition keep_thumbs (thumbs : Json N) : list (string * Json N) :=
  omap (fun size =>
          match get_prop thumbs size with
          | Some x => if truthy (Some x) then Some (size, x) else None
          | None => None
          end) KEEP_THUMBS.

(** One pass through the loop over [Object.entries(obj)]: what the entry adds
    to [result], [trim] being the recursive call.  [result[key] = ...] with
    the key [__proto__] goes to the setter of [Object.prototype] and adds no
    own entry. *)
Definition trim_entry (trim : Json N -> Json N) (entry : string * Json N)
  : option (string * Json N) :=
  let (key, value) := entry in
  if strip_has key then None
  else if String.eqb key "thumbnails" && is_object value then
    match keep_thumbs value with
    | [] => None
    | kept => Some (key, JObject kept)
    end
  else if String.eqb key "__proto__" then None
  else Some (key, trim value).

Fixpoint trimResponse (data : Json N) : Json N :=
  match data with
  | JArray items => JArray (map trimResponse items)
  | JObject entries => JObject (omap (trim_entry trimResponse) entries)
  | _ => data
  end.

(** The keys of the objects of [data], at every depth, the inside of a
    [thumbnails] object apart. *)
Definition entry_keys (keys : Json N -> list string) (entry : string * Json N)
  : list string :=
  let (key, value) := entry in
  key :: (if String.eqb key "thumbnails" && is_object value then [] else keys value).

Fixpoint keys_in (data : Json N) : list string :=
  match data with
  | JArray items => flat_map keys_in items
  | JObject entries => flat_map (entry_keys keys_in) entries
  | _ => []
  end.

(** The form [trimResponse] returns: no stripped key and no [__proto__] in
    any object, a [thumbnails] object holding the medium size only. *)
Definition entry_trimmed (trimmed : Json N -> bool) (entry : string * Json N) : bool :=
  let (key, value) := entry in
  negb (strip_has key) && negb (String.eqb key "__proto__") &&
  (if String.eqb key "thumbnails" && is_object value then
     match value with
     | JObject [(size, x)] => String.eqb size "medium" && truthy (Some x)
     | _ => false
     end
   else trimmed value).

Fixpoint is_trimmed (data : Json N) : bool :=
  match data with
  | JArray items => forallb is_trimmed items
  | JObject entries => forallb (entry_trimmed is_trimmed) entries
  | _ => true
  end.

End Trim.

(* ------------------------------------------------------------------------- *)
(** ** Further concrete inputs *)
(* ------------------------------------------------------------------------- *)

(** No webhook configured. *)
Definition cfg_silent : Config :=
  {| N8N_ALERT_WEBHOOK_URL := ""; SERVER_URL := "https://youtube-mcp.example" |}.


(** Three tiers that all reject. *)
Definition tiers_all_reject : list (Handler unit) :=
  [always "suggestEndpoint" (Rejects (ErrorObj "Suggest endpoint returned 503"));
   always "dataApiSearch" (Rejects (ErrorObj "quota exceeded"));
   always "webScrape" (Rejects (ErrorObj "layout changed"))].

(** A handler whose result holds a BigInt. *)
Definition bigint_handler : Handler unit :=
  always "findOutliers" (Resolves (VCyclic "Do not know how to serialize a BigInt")).

(** A row of the outlier CSV: timestamp, niche, channelId, channelName. *)
Definition sample_row : list Cell :=
  [Raw "2026-02-25T00:00:00.000Z"; Escaped "cooking, baking"; Raw "UC123";
   Escaped ("The " +:+ dquote +:+ "Best" +:+ dquote +:+ " Channel")].

(** A response with noise at two levels. *)
Definition sample_response : Json Z :=
  JObject
    [("kind", JString "youtube#videoListResponse");
     ("items",
      JArray
        [JObject
           [("etag", JString "x"); ("id", JString "abc");
            ("snippet",
             JObject
               [("title", JString "t");
                ("thumbnails",
                 JObject [("default", JObject [("url", JString "d")]);
                          ("medium", JObject [("url", JString "m")])])])]])].

Definition nonzeroZ (z : Z) : bool := negb (Z.eqb z 0).






(** One handler that rejects with an object without prototype. *)
Definition sole_unprintable : list (Handler unit) :=
  [always "primary" RejectsUnprintable].

(** One handler whose promise never settles. *)
Definition sole_hanging : list (Handler unit) :=
  [always "primary" NeverSettles].

(* ------------------------------------------------------------------------- *)
(** ** Equations of the persistence layer *)
(* ------------------------------------------------------------------------- *)

Lemma loadHealth_eq w : loadHealth w = (Normal (health_on_disk w), w).
Proof. unfold loadHealth, health_on_disk. by destruct (file w). Qed.


Lemma saveHealth_ok state w :
  fs_faults w = [] → saveHealth state w = (Normal tt, saved state w).
Proof.
  intros Hf.
  unfold saveHealth, ensureDataDir, existsSync_DATA_DIR, bind, saved.
  destruct (dir_exists w) eqn:Hd; simpl.
  - unfold ret, writeFileSync_HEALTH_FILE, fs_call. by rewrite Hf.
  - unfold mkdirSync_DATA_DIR, writeFileSync_HEALTH_FILE, fs_call.
    rewrite Hf. simpl. by rewrite Hf.
Qed.

Lemma saved_health state w : health_on_disk (saved state w) = state.
Proof. reflexivity. Qed.

Lemma saved_faults state w : fs_faults (saved state w) = fs_faults w.
Proof. unfold saved. by destruct (dir_exists w). Qed.

Lemma saved_net state w : net (saved state w) = net w.
Proof. unfold saved. by destruct (dir_exists w). Qed.

Lemma saved_calls state w : calls (log (saved state w)) = calls (log w).
Proof. unfold saved. by destruct (dir_exists w). Qed.

Lemma recordSuccess_ok toolName handlerName w :
  fs_faults w = [] →
  recordSuccess toolName handlerName w =
    (Normal tt, saved (<[key_of toolName handlerName := healthy]> (health_on_disk w)) w).
Proof.
  intros Hf. unfold recordSuccess, bind.
  rewrite loadHealth_eq. by apply saveHealth_ok.
Qed.

Lemma resetTool_ok toolName handlerName w :
  fs_faults w = [] →
  resetTool toolName handlerName w =
    (Normal tt, saved (<[key_of toolName handlerName := healthy]> (health_on_disk w)) w).
Proof.
  intros Hf. unfold resetTool, bind.
  rewrite loadHealth_eq. by apply saveHealth_ok.
Qed.


Lemma recordFailure_ok toolName handlerName error w :
  fs_faults w = [] →
  let key := key_of toolName handlerName in
  let h' := failed (getHandler (health_on_disk w) key) error (clock w (ticks w)) in
  recordFailure toolName handlerName error w =
    (Normal (degraded h'),
     saved (<[key := h']> (health_on_disk w)) (set_ticks (S (ticks w)) w)).
Proof.
  intros Hf key h'. unfold recordFailure, bind.
  rewrite loadHealth_eq. unfold now_ISO.
  rewrite saveHealth_ok by done. reflexivity.
Qed.

Lemma isDegraded_eq toolName handlerName w :
  isDegraded toolName handlerName w =
    (Normal (degraded (getHandler (health_on_disk w) (key_of toolName handlerName))), w).
Proof. unfold isDegraded, bind. by rewrite loadHealth_eq. Qed.

Lemma getHandler_insert_eq (state : HealthState) key h :
  getHandler (<[key := h]> state) key = h.
Proof. unfold getHandler. by rewrite lookup_insert_eq. Qed.

(* ------------------------------------------------------------------------- *)
(** ** Frame properties: which part of the world an operation leaves alone *)
(* ------------------------------------------------------------------------- *)

Lemma saveHealth_calls state w : calls (log (saveHealth state w).2) = calls (log w).
Proof.
  unfold saveHealth, ensureDataDir, existsSync_DATA_DIR, mkdirSync_DATA_DIR,
    writeFileSync_HEALTH_FILE, fs_call, bind, ret.
  destruct w as [d f faults n c t l]; simpl.
  destruct d, faults as [|[msg|] [|[msg'|] rest]]; reflexivity.
Qed.

Lemma recordSuccess_calls toolName handlerName w :
  calls (log (recordSuccess toolName handlerName w).2) = calls (log w).
Proof.
  unfold recordSuccess, bind. rewrite loadHealth_eq.
  pose proof (saveHealth_calls
    (<[key_of toolName handlerName := healthy]> (health_on_disk w)) w) as Hs.
  by destruct (saveHealth _ w) as [[ | | ] w'].
Qed.

Lemma recordFailure_calls toolName handlerName error w :
  calls (log (recordFailure toolName handlerName error w).2) = calls (log w).
Proof.
  unfold recordFailure, bind. rewrite loadHealth_eq. unfold now_ISO.
  match goal with |- context [saveHealth ?s ?w1] =>
    pose proof (saveHealth_calls s w1) as Hs; destruct (saveHealth s w1) as [[ | | ] w']
  end; exact Hs.
Qed.

Lemma alertN8n_calls cfg tool error n w :
  calls (log (alertN8n cfg tool error n w).2) = calls (log w).
Proof.
  unfold alertN8n. destruct (String.eqb _ _); [reflexivity|].
  unfold try_catch, bind, now_ISO, await_fetch, console_error. simpl.
  destruct (net w) as [|[ | e | ] rest]; reflexivity.
Qed.

(* ------------------------------------------------------------------------- *)
(** ** Equations of the alert dispatcher *)
(* ------------------------------------------------------------------------- *)


Lemma alertN8n_off cfg tool error n w :
  N8N_ALERT_WEBHOOK_URL cfg = "" → alertN8n cfg tool error n w = (Normal tt, w).
Proof. intros Hu. unfold alertN8n. by rewrite Hu. Qed.

Lemma alertN8n_on cfg tool error n w :
  N8N_ALERT_WEBHOOK_URL cfg ≠ "" →
  let url := N8N_ALERT_WEBHOOK_URL cfg in
  let post := EvPost url (alert_body cfg tool error n w) in
  let w1 := set_ticks (S (ticks w)) w in
  alertN8n cfg tool error n w =
    match net w with
    | [] => (Normal tt, emit post w1)
    | FetchResolves :: rest => (Normal tt, emit post (set_net rest w1))
    | FetchRejects e :: rest =>
        (Normal tt,
         emit (EvConsoleError "[resilience] Failed to alert n8n:" e)
           (emit post (set_net rest w1)))
    | FetchPending :: rest => (Pending, emit post (set_net rest w1))
    end.
Proof.
  intros Hu url post w1. unfold alertN8n.
  destruct (String.eqb_spec (N8N_ALERT_WEBHOOK_URL cfg) "") as [He|_]; [done|].
  unfold try_catch, bind, now_ISO, await_fetch, console_error. simpl.
  destruct (net w) as [|[ | e | ] rest]; reflexivity.
Qed.

Lemma alertN8n_settles cfg tool error n w :
  fetches_settle w = true →
  ∃ w', alertN8n cfg tool error n w = (Normal tt, w')
        ∧ fs_faults w' = fs_faults w
        ∧ fetches_settle w' = true
        ∧ health_on_disk w' = health_on_disk w.
Proof.
  intros Hs.
  destruct (String.eqb_spec (N8N_ALERT_WEBHOOK_URL cfg) "") as [Hu|Hu].
  - exists w. by rewrite alertN8n_off.
  - rewrite alertN8n_on by done. unfold fetches_settle in *.
    destruct (net w) as [|[ | e | ] rest] eqn:Hn; simpl in Hs; try discriminate;
      eexists; (split; [reflexivity|]); simpl; rewrite ?Hn; auto.
Qed.

(* ------------------------------------------------------------------------- *)
(** ** Equations of the loop body *)
(* ------------------------------------------------------------------------- *)

Section WrapperFacts.
Context {T : Type}.
Variable cfg : Config.
Variable toolName : string.
Variable handlers : list (Handler T).
Variable args : T.
Lemma catch_block_calls (handler : Handler T) err w :
  calls (log (catch_block cfg toolName handler err w).2) = calls (log w).
Proof.
  unfold catch_block, bind.
  pose proof (recordFailure_calls toolName (name handler) (message_of err) w) as Hr.
  destruct (recordFailure _ _ _ w) as [[b|e|] w1]; simpl in *; try done.
  destruct b.
  - pose proof (alertN8n_calls cfg (key_of toolName (name handler))
                  (message_of err) FAILURE_THRESHOLD w1) as Ha.
    destruct (alertN8n _ _ _ _ w1) as [[u|e|] w2]; simpl in *; congruence.
  - simpl. done.
Qed.

Lemma catch_clause_calls (handler : Handler T) err w :
  calls (log (catch_clause cfg toolName handler err w).2) = calls (log w).
Proof. destruct err as [e|]; [apply catch_block_calls|reflexivity]. Qed.


Lemma iteration_skip state i handler lastError w :
  degraded (getHandler state (key_of toolName (name handler))) = true →
  i < length handlers - 1 →
  iteration cfg toolName handlers args state i handler lastError w
    = (Normal (Continue lastError), w).
Proof.
  intros Hd Hi. unfold iteration. rewrite Hd.
  by rewrite (proj2 (Nat.ltb_lt _ _) Hi).
Qed.

Lemma iteration_attempt state i handler lastError w :
  degraded (getHandler state (key_of toolName (name handler)))
    && (i <? length handlers - 1)%nat = false →
  iteration cfg toolName handlers args state i handler lastError w =
    try_catch
      (result <- await_fn handler args ;;
       recordSuccess toolName (name handler) ;;
       text <- render result ;;
       ret (Return {| content := [text] |}))
      (catch_clause cfg toolName handler) w.
Proof. intros Hd. unfold iteration. by rewrite Hd. Qed.

(** Whatever happens afterwards, an attempt invokes this handler once and no
    other. *)
Lemma iteration_attempt_calls state i handler lastError w :
  degraded (getHandler state (key_of toolName (name handler)))
    && (i <? length handlers - 1)%nat = false →
  calls (log (iteration cfg toolName handlers args state i handler lastError w).2)
    = name handler :: calls (log w).
Proof.
  intros Hd. rewrite iteration_attempt by done.
  unfold try_catch, bind, await_fn.
  destruct (fn handler args) as [v|e| | ].
  - set (w1 := emit (EvCall (name handler)) w).
    pose proof (recordSuccess_calls toolName (name handler) w1) as Hr.
    destruct (recordSuccess _ _ w1) as [[u|e|] w2]; simpl in Hr.
    + destruct v; simpl; try done.
      by rewrite catch_block_calls.
    + by rewrite catch_clause_calls.
    + done.
  - by rewrite (catch_clause_calls handler e).
  - reflexivity.
  - reflexivity.
Qed.

(** The handler resolves, the health file is written and the result
    renders: the [try] block reaches its [return]. *)
Lemma iteration_success state i handler lastError w v text :
  degraded (getHandler state (key_of toolName (name handler)))
    && (i <? length handlers - 1)%nat = false →
  fn handler args = Resolves v →
  render v = ret text →
  fs_faults w = [] →
  iteration cfg toolName handlers args state i handler lastError w =
    (Normal (Return {| content := [text] |}),
     saved (<[key_of toolName (name handler) := healthy]> (health_on_disk w))
       (emit (EvCall (name handler)) w)).
Proof.
  intros Hd Hfn Hv Hf. rewrite iteration_attempt by done.
  unfold try_catch, bind, await_fn. rewrite Hfn.
  rewrite recordSuccess_ok by done. rewrite Hv. reflexivity.
Qed.

End WrapperFacts.

(* ------------------------------------------------------------------------- *)
(** ** The all-degraded short circuit *)
(* ------------------------------------------------------------------------- *)

Lemma allDegraded_Forall {T} toolName (handlers : list (Handler T)) state :
  allDegraded toolName handlers state = true ↔
  Forall (fun h => degraded (getHandler state (key_of toolName (name h))) = true) handlers.
Proof.
  unfold allDegraded. induction handlers as [|h hs IH]; simpl.
  - split; [constructor|done].
  - rewrite andb_true_iff, IH. split.
    + intros [? ?]. by constructor.
    + by inversion 1.
Qed.

Lemma withResilience_disabled {T} cfg toolName (handlers : list (Handler T)) args w :
  allDegraded toolName handlers (health_on_disk w) = true →
  withResilience cfg toolName handlers args w =
    (Normal {| content := [disabled_text toolName] |}, w).
Proof.
  intros Ha. unfold withResilience, bind. rewrite loadHealth_eq. by rewrite Ha.
Qed.

Lemma withResilience_loop {T} cfg toolName (handlers : list (Handler T)) args w :
  allDegraded toolName handlers (health_on_disk w) = false →
  withResilience cfg toolName handlers args w =
    loop cfg toolName handlers args (health_on_disk w) 0 handlers None w.
Proof.
  intros Ha. unfold withResilience, bind. rewrite loadHealth_eq. by rewrite Ha.
Qed.

(** C5.  If every handler of the list is degraded in the snapshot loaded at
    the start of the call, the facade returns the [DISABLED] envelope, which
    names the tool and points to [resetTool()], and leaves the world as it
    was: no handler invoked, no counter changed, nothing written. *)
Theorem all_degraded_short_circuit {T} cfg toolName (handlers : list (Handler T)) args w :
  Forall (fun h => degraded (getHandler (health_on_disk w) (key_of toolName (name h))) = true)
    handlers →
  withResilience cfg toolName handlers args w =
    (Normal {| content :=
       [ "[DISABLED] Tool " +:+ dquote +:+ toolName +:+ dquote +:+
         " is temporarily disabled — all handlers are degraded. Use resetTool() to re-enable." ] |},
     w).
Proof.
  intros Hall. apply withResilience_disabled. by apply allDegraded_Forall.
Qed.

(** C10.  With an empty handler list the facade returns the [DISABLED]
    envelope whatever the health file holds and leaves the world as it was;
    the outcome is the one of any all-degraded list. *)
Theorem empty_list_is_disabled {T} cfg toolName (args : T) w :
  withResilience cfg toolName [] args w =
    (Normal {| content := [disabled_text toolName] |}, w)
  ∧ ∀ handlers : list (Handler T),
      Forall (fun h => degraded (getHandler (health_on_disk w) (key_of toolName (name h))) = true)
        handlers →
      withResilience cfg toolName handlers args w = withResilience cfg toolName [] args w.
Proof.
  assert (He : withResilience cfg toolName [] args w =
               (Normal {| content := [disabled_text toolName] |}, w))
    by (by apply withResilience_disabled).
  split; [exact He|].
  intros handlers Hall. rewrite He.
  apply withResilience_disabled. by apply allDegraded_Forall.
Qed.

(* ------------------------------------------------------------------------- *)
(** ** Manual reset *)
(* ------------------------------------------------------------------------- *)

(** C9.  When the writes go through, a second [resetTool] in a row leaves the
    health file as the first one left it; after a reset the record reads
    [failures = 0], [degraded = false], and a record that was already the
    healthy one leaves the persisted state as it was. *)
Theorem resetTool_idempotent toolName handlerName w :
  fs_faults w = [] →
  let key := key_of toolName handlerName in
  let once := (resetTool toolName handlerName w).2 in
  let twice := (resetTool toolName handlerName once).2 in
  (resetTool toolName handlerName w).1 = Normal tt
  ∧ (resetTool toolName handlerName once).1 = Normal tt
  ∧ file twice = file once
  ∧ failures (getHandler (health_on_disk once) key) = 0
  ∧ degraded (getHandler (health_on_disk once) key) = false
  ∧ (health_on_disk w !! key = Some healthy → health_on_disk once = health_on_disk w).
Proof.
  intros Hf key once twice. subst once twice.
  rewrite resetTool_ok by done. cbn [fst snd].
  rewrite resetTool_ok by (by rewrite saved_faults). cbn [fst snd].
  rewrite !saved_health. fold key.
  repeat split.
  - cbn. by rewrite insert_insert_eq.
  - by rewrite getHandler_insert_eq.
  - by rewrite getHandler_insert_eq.
  - intros Hk. by apply insert_id.
Qed.

(* ------------------------------------------------------------------------- *)
(** ** Degradation threshold *)
(* ------------------------------------------------------------------------- *)

Lemma failures_in_a_row_from toolName handlerName errors : ∀ w,
  fs_faults w = [] →
  let key := key_of toolName handlerName in
  let k := failures (getHandler (health_on_disk w) key) in
  degraded (getHandler (health_on_disk w) key) = (FAILURE_THRESHOLD <=? k)%nat →
  ∃ w', failures_in_a_row toolName handlerName errors w =
          (Normal (map (fun j => (FAILURE_THRESHOLD <=? k + j)%nat) (seq 1 (length errors))), w')
        ∧ fs_faults w' = []
        ∧ failures (getHandler (health_on_disk w') key) = k + length errors
        ∧ degraded (getHandler (health_on_disk w') key)
            = (FAILURE_THRESHOLD <=? k + length errors)%nat.
Proof.
  induction errors as [|error errors IH]; intros w Hf key k Hd.
  - exists w. subst k. rewrite Nat.add_0_r. done.
  - cbn [failures_in_a_row]. unfold bind at 1.
    rewrite recordFailure_ok by done. cbv zeta. fold key.
    set (h' := failed (getHandler (health_on_disk w) key) error (clock w (ticks w))).
    set (w1 := saved (<[key := h']> (health_on_disk w)) (set_ticks (S (ticks w)) w)).
    assert (Hh1 : getHandler (health_on_disk w1) key = h')
      by (subst w1; rewrite saved_health; apply getHandler_insert_eq).
    assert (Hdeg : degraded h' = (FAILURE_THRESHOLD <=? k + 1)%nat).
    { subst h'. cbn [degraded failed]. fold k. rewrite Hd.
      unfold FAILURE_THRESHOLD.
      destruct (3 <=? k + 1)%nat eqn:E1; [done|].
      apply Nat.leb_gt in E1. apply Nat.leb_gt. lia. }
    destruct (IH w1) as (w' & Hrun & Hf' & Hn' & Hd').
    { subst w1. by rewrite saved_faults. }
    { fold key. rewrite Hh1. exact Hdeg. }
    fold key in Hrun, Hn', Hd'. rewrite Hh1 in Hrun, Hn', Hd'.
    assert (Hk1 : failures h' = k + 1) by done.
    rewrite Hk1 in Hrun, Hn', Hd'.
    assert (Hflags :
      map (fun j => (FAILURE_THRESHOLD <=? k + 1 + j)%nat) (seq 1 (length errors))
      = map (fun j => (FAILURE_THRESHOLD <=? k + j)%nat) (seq 2 (length errors))).
    { rewrite <- (seq_shift (length errors) 1), map_map.
      apply map_ext. intros j. f_equal. lia. }
    exists w'. unfold bind. rewrite Hrun. unfold ret. cbn [length seq map].
    repeat split.
    + by rewrite Hdeg, Hflags.
    + exact Hf'.
    + rewrite Hn'. lia.
    + rewrite Hd'. f_equal. lia.
Qed.

(** C7.  From a healthy record and with nothing but failures of this handler
    recorded, [degraded] is true after [n] failures exactly when [n >= 3]:
    the [j]-th [recordFailure] returns [3 <= j], the counter reads [n], and
    [isDegraded] answers [3 <= n]. *)
Theorem degraded_exactly_at_threshold toolName handlerName errors w :
  fs_faults w = [] →
  let key := key_of toolName handlerName in
  failures (getHandler (health_on_disk w) key) = 0 →
  degraded (getHandler (health_on_disk w) key) = false →
  ∃ w', failures_in_a_row toolName handlerName errors w =
          (Normal (map (fun j => (3 <=? j)%nat) (seq 1 (length errors))), w')
        ∧ failures (getHandler (health_on_disk w') key) = length errors
        ∧ (degraded (getHandler (health_on_disk w') key) = true ↔ (3 ≤ length errors)%nat)
        ∧ isDegraded toolName handlerName w' = (Normal (3 <=? length errors)%nat, w').
Proof.
  intros Hf key H0 Hd.
  destruct (failures_in_a_row_from toolName handlerName errors w Hf)
    as (w' & Hrun & _ & Hn & Hd').
  { fold key. rewrite H0, Hd. done. }
  fold key in Hrun, Hn, Hd'. rewrite H0 in Hrun, Hn, Hd'. cbn [Nat.add] in *.
  exists w'. split; [exact Hrun|]. split; [exact Hn|]. split.
  - rewrite Hd'. unfold FAILURE_THRESHOLD. apply Nat.leb_le.
  - rewrite isDegraded_eq. fold key. by rewrite Hd'.
Qed.

(* ------------------------------------------------------------------------- *)
(** ** The fallback test *)
(* ------------------------------------------------------------------------- *)

Lemma hasFallback_lookup {T} (handlers : list (Handler T)) i :
  (i <? length handlers - 1)%nat = true ↔ is_Some (handlers !! S i).
Proof.
  rewrite Nat.ltb_lt, lookup_lt_is_Some. lia.
Qed.

(* ------------------------------------------------------------------------- *)
(** ** A sole handler *)
(* ------------------------------------------------------------------------- *)

Lemma loop_last {T} cfg toolName (handlers : list (Handler T)) args state i handler lastError w :
  loop cfg toolName handlers args state i [handler] lastError w =
    match iteration cfg toolName handlers args state i handler lastError w with
    | (Normal (Return r), w') => (Normal r, w')
    | (Normal (Continue lastError'), w') =>
        (Normal {| content := [error_text toolName lastError'] |}, w')
    | (Throw e, w') => (Throw e, w')
    | (Pending, w') => (Pending, w')
    end.
Proof.
  cbn [loop]. unfold bind.
  destruct (iteration _ _ _ _ _ _ _ _ w) as [[[le|r]|e|] w']; reflexivity.
Qed.

(** C1, as the code has it.  A list of one handler that is degraded in the
    snapshot is answered with the [DISABLED] envelope and the world is left
    as it was: the handler is not invoked.  A sole handler that is not
    degraded is invoked, and when it resolves, the write goes through and
    the result renders, the facade returns the result and the record on disk
    is the healthy one. *)
Theorem sole_handler_policy {T} cfg toolName (handler : Handler T) args w :
  let key := key_of toolName (name handler) in
  let run := withResilience cfg toolName [handler] args w in
  (degraded (getHandler (health_on_disk w) key) = true →
     run = (Normal {| content := [disabled_text toolName] |}, w))
  ∧ (degraded (getHandler (health_on_disk w) key) = false →
     calls (log run.2) = name handler :: calls (log w)
     ∧ ∀ v text,
         fn handler args = Resolves v → render v = ret text → fs_faults w = [] →
         run.1 = Normal {| content := [text] |}
         ∧ getHandler (health_on_disk run.2) key = healthy).
Proof.
  intros key run. split.
  - intros Hd. subst run. apply withResilience_disabled.
    unfold allDegraded. cbn [forallb]. fold key. by rewrite Hd.
  - intros Hd.
    assert (Hrun : run = loop cfg toolName [handler] args (health_on_disk w) 0 [handler] None w).
    { subst run. apply withResilience_loop.
      unfold allDegraded. cbn [forallb]. fold key. by rewrite Hd. }
    assert (Hatt : degraded (getHandler (health_on_disk w) (key_of toolName (name handler)))
                     && (0 <? length [handler] - 1)%nat = false)
      by (fold key; by rewrite Hd).
    rewrite Hrun, loop_last. split.
    + pose proof (iteration_attempt_calls cfg toolName [handler] args
                    (health_on_disk w) 0 handler None w Hatt) as Hc.
      by destruct (iteration _ _ _ _ _ _ _ _ w) as [[[le|r]|e|] w'].
    + intros v text Hfn Hv Hf.
      rewrite (iteration_success cfg toolName [handler] args (health_on_disk w) 0
                 handler None w v text) by done.
      split; [reflexivity|]. cbn [snd]. rewrite saved_health. apply getHandler_insert_eq.
Qed.

(** C1 fails on the code: the sole handler would succeed, yet it is never
    invoked and its record stays degraded. *)
Lemma sole_degraded_handler_not_attempted :
  (withResilience cfg_alerting "search" sole_ok tt
     (world_with (Stored {[ "search:primary" := degraded_record ]}))).1
    = Normal {| content := [disabled_text "search"] |}
  ∧ calls (log (withResilience cfg_alerting "search" sole_ok tt
                  (world_with (Stored {[ "search:primary" := degraded_record ]}))).2) = []
  ∧ getHandler
      (health_on_disk (withResilience cfg_alerting "search" sole_ok tt
                         (world_with (Stored {[ "search:primary" := degraded_record ]}))).2)
      "search:primary" = degraded_record.
Proof. vm_compute. done. Qed.

(* ------------------------------------------------------------------------- *)
(** ** The facade returns an envelope *)
(* ------------------------------------------------------------------------- *)





(** The other two ways out of the envelope, for every world: a handler that
    rejects with a value [String] cannot convert makes the call end with the
    [TypeError] of the [catch] block, nothing being recorded; a handler whose
    promise never settles leaves the call pending. *)
Lemma unprintable_rejection_propagates w :
  withResilience cfg_alerting "search" sole_unprintable tt (set_file Missing w)
    = (Throw (ErrorObj "Cannot convert object to primitive value"),
       emit (EvCall "primary") (set_file Missing w)).
Proof. reflexivity. Qed.

Lemma unsettled_handler_pends w :
  withResilience cfg_alerting "search" sole_hanging tt (set_file Missing w)
    = (Pending, emit (EvCall "primary") (set_file Missing w)).
Proof. reflexivity. Qed.

(* ------------------------------------------------------------------------- *)
(** ** Alert dispatch *)
(* ------------------------------------------------------------------------- *)

Lemma recordFailure_at_threshold toolName handlerName error w :
  fs_faults w = [] →
  (2 ≤ failures (getHandler (health_on_disk w) (key_of toolName handlerName)))%nat
  ∨ degraded (getHandler (health_on_disk w) (key_of toolName handlerName)) = true →
  ∃ w', recordFailure toolName handlerName error w = (Normal true, w')
        ∧ fs_faults w' = [] ∧ net w' = net w.
Proof.
  intros Hf Hd. rewrite recordFailure_ok by done. cbv zeta.
  assert (Hflag : degraded (failed (getHandler (health_on_disk w)
                    (key_of toolName handlerName)) error (clock w (ticks w))) = true).
  { cbn [degraded failed]. unfold FAILURE_THRESHOLD.
    destruct Hd as [Hn|Hd].
    - by rewrite (proj2 (Nat.leb_le _ _)) by lia.
    - rewrite Hd. by destruct (_ <=? _)%nat. }
  rewrite Hflag. eexists. split; [reflexivity|].
  split; [by rewrite saved_faults|by rewrite saved_net].
Qed.

(** C8, as the code has it.  With no webhook URL [alertN8n] does nothing.
    With one it POSTs once; a rejected POST is caught and logged with
    [console.error], nothing is thrown and nothing is sent again.  The
    dispatch is awaited: [alertN8n] awaits the POST and the loop awaits
    [alertN8n], so while the POST is pending the call of the facade is
    pending too. *)
Theorem alert_contained_and_awaited cfg :
  (∀ tool error n w,
     N8N_ALERT_WEBHOOK_URL cfg = "" → alertN8n cfg tool error n w = (Normal tt, w))
  ∧ (∀ tool error n w e rest,
       N8N_ALERT_WEBHOOK_URL cfg ≠ "" → net w = FetchRejects e :: rest →
       ∃ w', alertN8n cfg tool error n w = (Normal tt, w')
             ∧ log w' = EvConsoleError "[resilience] Failed to alert n8n:" e
                          :: EvPost (N8N_ALERT_WEBHOOK_URL cfg) (alert_body cfg tool error n w)
                          :: log w
             ∧ net w' = rest)
  ∧ (∀ tool error n w,
       (∀ e, (alertN8n cfg tool error n w).1 ≠ Throw e)
       ∧ (length (posts (log (alertN8n cfg tool error n w).2))
            ≤ S (length (posts (log w))))%nat)
  ∧ (∀ tool error n w rest,
       N8N_ALERT_WEBHOOK_URL cfg ≠ "" → net w = FetchPending :: rest →
       (alertN8n cfg tool error n w).1 = Pending)
  ∧ (∀ T toolName (handlers : list (Handler T)) args state i handler others lastError w e rest,
       degraded (getHandler state (key_of toolName (name handler)))
         && (i <? length handlers - 1)%nat = false →
       fn handler args = Rejects e →
       fs_faults w = [] →
       (2 ≤ failures (getHandler (health_on_disk w) (key_of toolName (name handler))))%nat →
       N8N_ALERT_WEBHOOK_URL cfg ≠ "" → net w = FetchPending :: rest →
       (loop cfg toolName handlers args state i (handler :: others) lastError w).1 = Pending).
Proof.
  split; [|split; [|split; [|split]]].
  - intros. by apply alertN8n_off.
  - intros tool error n w e rest Hu Hn. rewrite alertN8n_on by done. rewrite Hn.
    eexists. split; [reflexivity|]. done.
  - intros tool error n w.
    destruct (String.eqb_spec (N8N_ALERT_WEBHOOK_URL cfg) "") as [Hu|Hu].
    + rewrite alertN8n_off by done. split; [done|]. cbn. lia.
    + rewrite alertN8n_on by done.
      destruct (net w) as [|[ | e' | ] rest]; (split; [done|cbn; lia]).
  - intros tool error n w rest Hu Hn. rewrite alertN8n_on by done. by rewrite Hn.
  - intros T toolName handlers args state i handler others lastError w e rest
      Hatt Hfn Hf H2 Hu Hn.
    cbn [loop]. unfold bind at 1. rewrite iteration_attempt by done.
    unfold try_catch, bind at 1. unfold await_fn. rewrite Hfn.
    unfold catch_clause, catch_block, bind.
    destruct (recordFailure_at_threshold toolName (name handler) (message_of e)
                (emit (EvCall (name handler)) w)) as (w1 & -> & Hf1 & Hn1); [done|by left|].
    rewrite alertN8n_on by done. rewrite Hn1. cbn [net emit]. by rewrite Hn.
Qed.

(** C8 fails on the code: the third failure of the handler crosses the
    threshold, the webhook never answers, and the call of the facade stays
    pending; with a webhook that answers the same call returns [ERROR]. *)
Lemma facade_waits_for_alert :
  (withResilience cfg_alerting "search" sole_failing tt world_webhook_silent).1 = Pending
  ∧ (withResilience cfg_alerting "search" sole_failing tt world_webhook_answers).1
      = Normal {| content := [error_text "search" (Some (ErrorObj "quota exceeded"))] |}.
Proof. vm_compute. done. Qed.

(** C2 fails on the code.  [recordFailure] returns the [degraded] flag of the
    record, not whether this failure crossed the threshold, so every failure
    of a handler that is already degraded alerts again.  Over [five_calls]
    the fallback fails four times in a row and is never reset, and two alerts
    are POSTed for it, both announcing [failureCount = 3]: one at its third
    failure (call 4) and one at its fourth (call 5), where it is attempted as
    the last handler though degraded. *)
Theorem alert_repeats_while_degraded :
  map tool (posts (log five_calls.2)) = ["search:scrape"; "search:scrape"]
  ∧ map failureCount (posts (log five_calls.2)) = [3; 3]
  ∧ failures (getHandler (health_on_disk five_calls.2) "search:scrape") = 4
  ∧ calls (log five_calls.2)
      = ["scrape"; "primary"; "scrape"; "primary"; "primary";
         "scrape"; "primary"; "scrape"; "primary"].
Proof. vm_compute. done. Qed.

(* ------------------------------------------------------------------------- *)
(** ** The statements at concrete inputs *)
(* ------------------------------------------------------------------------- *)

Lemma all_degraded_short_circuit_witness :
  withResilience cfg_alerting "search" three_tiers tt (world_with (Stored three_degraded))
    = (Normal {| content :=
         [ "[DISABLED] Tool " +:+ dquote +:+ "search" +:+ dquote +:+
           " is temporarily disabled — all handlers are degraded. Use resetTool() to re-enable." ] |},
       world_with (Stored three_degraded)).
Proof.
  apply all_degraded_short_circuit.
  repeat constructor.
Defined.

Lemma empty_list_is_disabled_witness :
  withResilience cfg_alerting "search" three_tiers tt (world_with (Stored three_degraded))
    = withResilience cfg_alerting "search" [] tt (world_with (Stored three_degraded)).
Proof.
  apply (proj2 (empty_list_is_disabled cfg_alerting "search" tt
                  (world_with (Stored three_degraded)))).
  repeat constructor.
Defined.

Lemma resetTool_idempotent_witness :
  fs_faults (world_with (Stored three_degraded)) = []
  ∧ file (resetTool "search" "webScrape"
            (resetTool "search" "webScrape" (world_with (Stored three_degraded))).2).2
    = file (resetTool "search" "webScrape" (world_with (Stored three_degraded))).2.
Proof.
  split; [reflexivity|].
  destruct (resetTool_idempotent "search" "webScrape" (world_with (Stored three_degraded))
              eq_refl) as (_ & _ & Hfile & _).
  exact Hfile.
Defined.

Lemma degraded_exactly_at_threshold_witness :
  ∃ w', failures_in_a_row "search" "primary" ["e1"; "e2"; "e3"; "e4"; "e5"]
          (world_with Missing)
        = (Normal [false; false; true; true; true], w')
      ∧ isDegraded "search" "primary" w' = (Normal true, w').
Proof.
  destruct (degraded_exactly_at_threshold "search" "primary"
              ["e1"; "e2"; "e3"; "e4"; "e5"] (world_with Missing)
              eq_refl eq_refl eq_refl) as (w' & Hrun & _ & _ & Hdeg).
  exists w'. split; [exact Hrun|exact Hdeg].
Defined.

Lemma sole_handler_policy_witness :
  withResilience cfg_alerting "search" sole_ok tt
    (world_with (Stored {[ "search:primary" := degraded_record ]}))
  = (Normal {| content := [disabled_text "search"] |},
     world_with (Stored {[ "search:primary" := degraded_record ]}))
  ∧ (withResilience cfg_alerting "search" sole_ok tt
       (world_with (Stored {[ "search:primary" := two_failures ]}))).1
    = Normal {| content := ["ok"] |}.
Proof.
  split.
  - exact (proj1 (sole_handler_policy cfg_alerting "search"
                    (always "primary" (Resolves (VString "ok"))) tt
                    (world_with (Stored {[ "search:primary" := degraded_record ]})))
                 eq_refl).
  - destruct (sole_handler_policy cfg_alerting "search"
                (always "primary" (Resolves (VString "ok"))) tt
                (world_with (Stored {[ "search:primary" := two_failures ]})))
      as (_ & Hhealthy).
    destruct (Hhealthy eq_refl) as (_ & Hok).
    exact (proj1 (Hok (VString "ok") "ok" eq_refl eq_refl eq_refl)).
Defined.


Lemma alert_contained_and_awaited_witness :
  (alertN8n cfg_alerting "search:primary" "quota exceeded" 3 world_webhook_silent).1
    = Pending
  ∧ (loop cfg_alerting "search" sole_failing tt
       {[ "search:primary" := two_failures ]} 0 sole_failing None world_webhook_silent).1
    = Pending.
Proof.
  destruct (alert_contained_and_awaited cfg_alerting) as (_ & _ & _ & Hwait & Hloop).
  split.
  - apply (Hwait "search:primary" "quota exceeded" 3 world_webhook_silent []).
    + discriminate.
    + reflexivity.
  - apply (Hloop unit "search" sole_failing tt {[ "search:primary" := two_failures ]} 0
             (always "primary" (Rejects (ErrorObj "quota exceeded"))) [] None
             world_webhook_silent (ErrorObj "quota exceeded") []).
    + reflexivity.
    + reflexivity.
    + reflexivity.
    + vm_compute. lia.
    + discriminate.
    + reflexivity.
Defined.

(* ------------------------------------------------------------------------- *)
(** ** What a call does to the world, whatever fails *)
(* ------------------------------------------------------------------------- *)

Lemma saveHealth_disk state w :
  health_on_disk (saveHealth state w).2 = state
  ∨ file (saveHealth state w).2 = file w.
Proof.
  unfold saveHealth, ensureDataDir, existsSync_DATA_DIR, mkdirSync_DATA_DIR,
    writeFileSync_HEALTH_FILE, fs_call, bind, ret.
  destruct w as [d f faults n c t l]; simpl.
  destruct d, faults as [|[msg|] [|[msg'|] rest]]; simpl; auto.
Qed.

Lemma saveHealth_frame state w :
  posts (log (saveHealth state w).2) = posts (log w)
  ∧ net (saveHealth state w).2 = net w.
Proof.
  unfold saveHealth, ensureDataDir, existsSync_DATA_DIR, mkdirSync_DATA_DIR,
    writeFileSync_HEALTH_FILE, fs_call, bind, ret.
  destruct w as [d f faults n c t l]; simpl.
  destruct d, faults as [|[msg|] [|[msg'|] rest]]; simpl; auto.
Qed.

Lemma file_health w w' : file w' = file w → health_on_disk w' = health_on_disk w.
Proof. unfold health_on_disk. by intros ->. Qed.

Lemma recordSuccess_step keys toolName handlerName w :
  key_of toolName handlerName ∈ keys →
  rtc (health_step keys) (health_on_disk w)
    (health_on_disk (recordSuccess toolName handlerName w).2).
Proof.
  intros Hk. unfold recordSuccess, bind. rewrite loadHealth_eq.
  match goal with |- context [saveHealth ?s ?w1] =>
    destruct (saveHealth_disk s w1) as [Hd|Hd];
    destruct (saveHealth s w1) as [[u|e|] w2]; cbn [snd] in *
  end.
  all: try (rewrite Hd; apply rtc_once; by constructor).
  all: rewrite (file_health _ _ Hd); apply rtc_refl.
Qed.

Lemma recordFailure_step keys toolName handlerName error w :
  key_of toolName handlerName ∈ keys →
  rtc (health_step keys) (health_on_disk w)
    (health_on_disk (recordFailure toolName handlerName error w).2).
Proof.
  intros Hk. unfold recordFailure, bind. rewrite loadHealth_eq. unfold now_ISO.
  match goal with |- context [saveHealth ?s ?w1] =>
    destruct (saveHealth_disk s w1) as [Hd|Hd];
    destruct (saveHealth s w1) as [[u|e|] w2]; unfold ret; cbn [snd] in *
  end.
  all: try (rewrite Hd; apply rtc_once;
            exact (step_failure keys (health_on_disk w) (key_of toolName handlerName)
                     error (clock w (ticks w)) Hk)).
  all: rewrite (file_health _ _ Hd); apply rtc_refl.
Qed.

Lemma recordSuccess_frame toolName handlerName w :
  posts (log (recordSuccess toolName handlerName w).2) = posts (log w)
  ∧ net (recordSuccess toolName handlerName w).2 = net w.
Proof.
  unfold recordSuccess, bind. rewrite loadHealth_eq.
  match goal with |- context [saveHealth ?s ?w1] =>
    pose proof (saveHealth_frame s w1) as Hs; by destruct (saveHealth s w1) as [[u|e|] w2]
  end.
Qed.

Lemma recordFailure_frame toolName handlerName error w :
  posts (log (recordFailure toolName handlerName error w).2) = posts (log w)
  ∧ net (recordFailure toolName handlerName error w).2 = net w.
Proof.
  unfold recordFailure, bind. rewrite loadHealth_eq. unfold now_ISO.
  match goal with |- context [saveHealth ?s ?w1] =>
    pose proof (saveHealth_frame s w1) as Hs; by destruct (saveHealth s w1) as [[u|e|] w2]
  end.
Qed.

Lemma alertN8n_file cfg tool error n w :
  file (alertN8n cfg tool error n w).2 = file w.
Proof.
  unfold alertN8n. destruct (String.eqb _ _); [reflexivity|].
  unfold try_catch, bind, now_ISO, await_fetch, console_error. simpl.
  destruct (net w) as [|[ | e | ] rest]; reflexivity.
Qed.

(** One dispatch POSTs at most once, and not at all without a URL. *)
Lemma alertN8n_posts cfg tool error n w :
  (length (posts (log (alertN8n cfg tool error n w).2)) ≤ S (length (posts (log w))))%nat
  ∧ (N8N_ALERT_WEBHOOK_URL cfg = "" → (alertN8n cfg tool error n w).2 = w).
Proof.
  destruct (String.eqb_spec (N8N_ALERT_WEBHOOK_URL cfg) "") as [Hu|Hu].
  - rewrite alertN8n_off by done. split; [cbn; lia|done].
  - split; [|done]. rewrite alertN8n_on by done.
    destruct (net w) as [|[ | e' | ] rest]; cbn; lia.
Qed.

Section CallEffects.
Context {T : Type}.
Variable cfg : Config.
Variable toolName : string.
Variable handlers : list (Handler T).
Variable args : T.

Lemma catch_block_effects keys (handler : Handler T) err w :
  key_of toolName (name handler) ∈ keys →
  rtc (health_step keys) (health_on_disk w)
    (health_on_disk (catch_block cfg toolName handler err w).2)
  ∧ (length (posts (log (catch_block cfg toolName handler err w).2))
       ≤ S (length (posts (log w))))%nat
  ∧ (N8N_ALERT_WEBHOOK_URL cfg = "" →
       posts (log (catch_block cfg toolName handler err w).2) = posts (log w)
       ∧ net (catch_block cfg toolName handler err w).2 = net w).
Proof.
  intros Hk. unfold catch_block, bind.
  pose proof (recordFailure_step keys toolName (name handler) (message_of err) w Hk) as Hstep.
  destruct (recordFailure_frame toolName (name handler) (message_of err) w) as [Hp Hn].
  destruct (recordFailure _ _ _ w) as [[b|e|] w1]; cbn [snd] in *.
  2,3: rewrite Hp, Hn; split; [done|split; [lia|done]].
  destruct b.
  - pose proof (alertN8n_file cfg (key_of toolName (name handler)) (message_of err)
                  FAILURE_THRESHOLD w1) as Hfile.
    destruct (alertN8n_posts cfg (key_of toolName (name handler)) (message_of err)
                FAILURE_THRESHOLD w1) as [Hpost Hoff].
    destruct (alertN8n _ _ _ _ w1) as [[u|e|] w2]; unfold ret; cbn [snd] in *.
    all: rewrite (file_health _ _ Hfile); split; [done|].
    all: rewrite Hp in Hpost; split; [lia|]; intros Hu; rewrite (Hoff Hu); done.
  - unfold ret. cbn [snd]. rewrite Hp, Hn. split; [done|split; [lia|done]].
Qed.

Lemma catch_clause_effects keys (handler : Handler T) err w :
  key_of toolName (name handler) ∈ keys →
  rtc (health_step keys) (health_on_disk w)
    (health_on_disk (catch_clause cfg toolName handler err w).2)
  ∧ (length (posts (log (catch_clause cfg toolName handler err w).2))
       ≤ S (length (posts (log w))))%nat
  ∧ (N8N_ALERT_WEBHOOK_URL cfg = "" →
       posts (log (catch_clause cfg toolName handler err w).2) = posts (log w)
       ∧ net (catch_clause cfg toolName handler err w).2 = net w).
Proof.
  intros Hk. destruct err as [e|]; [by apply catch_block_effects|].
  cbn. split; [done|]. split; [lia|done].
Qed.

Lemma iteration_effects keys state i (handler : Handler T) lastError w :
  key_of toolName (name handler) ∈ keys →
  ∃ invoked,
    calls (log (iteration cfg toolName handlers args state i handler lastError w).2)
      = (invoked ++ calls (log w))%list
    ∧ (invoked = [] ∨ invoked = [name handler])
    ∧ rtc (health_step keys) (health_on_disk w)
        (health_on_disk (iteration cfg toolName handlers args state i handler lastError w).2)
    ∧ (length (posts (log (iteration cfg toolName handlers args state i handler
                             lastError w).2))
         ≤ length (posts (log w)) + length invoked)%nat
    ∧ (N8N_ALERT_WEBHOOK_URL cfg = "" →
         posts (log (iteration cfg toolName handlers args state i handler lastError w).2)
           = posts (log w)
         ∧ net (iteration cfg toolName handlers args state i handler lastError w).2 = net w).
Proof.
  intros Hk.
  destruct (degraded (getHandler state (key_of toolName (name handler)))
              && (i <? length handlers - 1)%nat) eqn:Hskip.
  - exists []. unfold iteration. rewrite Hskip. unfold ret. cbn [snd app length].
    split; [done|]. split; [by left|]. split; [done|]. split; [lia|done].
  - exists [name handler].
    split; [by apply iteration_attempt_calls|]. split; [by right|].
    rewrite iteration_attempt by done.
    match goal with |- context [try_catch ?b ?c w] =>
      remember (try_catch b c w) as r eqn:Hr
    end.
    unfold try_catch, bind at 1 in Hr. unfold await_fn in Hr.
    remember (emit (EvCall (name handler)) w) as w1 eqn:Hw1.
    assert (H1 : health_on_disk w1 = health_on_disk w ∧ posts (log w1) = posts (log w)
                 ∧ net w1 = net w) by (by rewrite Hw1).
    clear Hw1. destruct H1 as (Hh1 & Hp1 & Hn1). rewrite <- Hh1, <- Hp1, <- Hn1.
    cbn [length]. rewrite Nat.add_1_r.
    destruct (fn handler args) as [v|e| | ].
    + unfold bind in Hr.
      pose proof (recordSuccess_step keys toolName (name handler) w1 Hk) as Hstep.
      destruct (recordSuccess_frame toolName (name handler) w1) as [Hp Hn].
      destruct (recordSuccess _ _ w1) as [[u|e|] w2]; cbn [snd] in *.
      * destruct v as [s|s|reason| ]; cbn [render] in Hr; unfold ret, throw in Hr.
        1,2,4: subst r; cbn [snd]; rewrite Hp, Hn; split; [done|split; [lia|done]].
        destruct (catch_clause_effects keys handler (ErrorObj reason) w2 Hk)
          as (Hs2 & Hp2 & Hoff).
        subst r. split; [by etrans|]. rewrite Hp in Hp2. split; [lia|].
        intros Hu. destruct (Hoff Hu) as [-> ->]. done.
      * destruct (catch_clause_effects keys handler e w2 Hk) as (Hs2 & Hp2 & Hoff).
        subst r. split; [by etrans|]. rewrite Hp in Hp2. split; [lia|].
        intros Hu. destruct (Hoff Hu) as [-> ->]. done.
      * subst r. cbn [snd]. rewrite Hp, Hn. split; [done|split; [lia|done]].
    + destruct (catch_clause_effects keys handler e w1 Hk) as (Hs2 & Hp2 & Hoff).
      subst r. split; [done|]. split; [lia|]. done.
    + destruct (catch_clause_effects keys handler Unprintable w1 Hk) as (Hs2 & Hp2 & Hoff).
      subst r. split; [done|]. split; [lia|]. done.
    + subst r. cbn [snd]. split; [done|]. split; [lia|]. done.
Qed.

Lemma loop_effects state rest : ∀ i lastError w,
  ∃ invoked,
    calls (log (loop cfg toolName handlers args state i rest lastError w).2)
      = (rev invoked ++ calls (log w))%list
    ∧ invoked `sublist_of` map name rest
    ∧ rtc (health_step (keys_of toolName rest)) (health_on_disk w)
        (health_on_disk (loop cfg toolName handlers args state i rest lastError w).2)
    ∧ (length (posts (log (loop cfg toolName handlers args state i rest lastError w).2))
         ≤ length (posts (log w)) + length invoked)%nat
    ∧ (N8N_ALERT_WEBHOOK_URL cfg = "" →
         posts (log (loop cfg toolName handlers args state i rest lastError w).2)
           = posts (log w)
         ∧ net (loop cfg toolName handlers args state i rest lastError w).2 = net w).
Proof.
  induction rest as [|handler rest IH]; intros i lastError w.
  - exists []. cbn. split; [done|]. split; [done|]. split; [done|]. split; [lia|done].
  - cbn [loop]. unfold bind.
    destruct (iteration_effects (keys_of toolName (handler :: rest)) state i handler
                lastError w) as (inv1 & Hc1 & Hone & Hs1 & Hp1 & Hoff1).
    { cbn. apply list_elem_of_here. }
    destruct (iteration cfg toolName handlers args state i handler lastError w)
      as [[[le'|r]|e|] w1]; cbn [snd] in *.
    2,3,4: exists inv1; unfold ret; cbn [snd];
      (split; [by destruct Hone as [->| ->]|]);
      (split; [destruct Hone as [->| ->];
               [apply sublist_nil_l|cbn; apply sublist_skip, sublist_nil_l]|]);
      done.
    destruct (IH (S i) le' w1) as (inv2 & Hc2 & Hsub & Hs2 & Hp2 & Hoff2).
    exists (inv1 ++ inv2)%list.
    split.
    { rewrite Hc2, Hc1, rev_app_distr, <- app_assoc.
      by destruct Hone as [->| ->]. }
    split.
    { destruct Hone as [->| ->]; cbn [app map].
      - by apply sublist_cons.
      - by apply sublist_skip. }
    split.
    { etrans; [exact Hs1|].
      eapply rtc_subrel; [|exact Hs2].
      intros s1 s2 Hstep. destruct Hstep as [s k Hk|s k err st Hk].
      - apply step_success. cbn. by apply list_elem_of_further.
      - apply step_failure. cbn. by apply list_elem_of_further. }
    split.
    { rewrite length_app. lia. }
    intros Hu. destruct (Hoff1 Hu) as [Hp Hn]. destruct (Hoff2 Hu) as [Hp' Hn'].
    split; congruence.
Qed.

End CallEffects.

Lemma withResilience_effects {T} cfg toolName (handlers : list (Handler T)) args w :
  ∃ invoked,
    calls (log (withResilience cfg toolName handlers args w).2)
      = (rev invoked ++ calls (log w))%list
    ∧ invoked `sublist_of` map name handlers
    ∧ rtc (health_step (keys_of toolName handlers)) (health_on_disk w)
        (health_on_disk (withResilience cfg toolName handlers args w).2)
    ∧ (length (posts (log (withResilience cfg toolName handlers args w).2))
         ≤ length (posts (log w)) + length invoked)%nat
    ∧ (N8N_ALERT_WEBHOOK_URL cfg = "" →
         posts (log (withResilience cfg toolName handlers args w).2) = posts (log w)
         ∧ net (withResilience cfg toolName handlers args w).2 = net w).
Proof.
  destruct (allDegraded toolName handlers (health_on_disk w)) eqn:Ha.
  - rewrite withResilience_disabled by done. exists []. cbn.
    split; [done|]. split; [apply sublist_nil_l|]. split; [done|]. split; [lia|done].
  - rewrite withResilience_loop by done. apply loop_effects.
Qed.

Lemma health_step_consistent keys state state' :
  health_step keys state state' → consistent state → consistent state'.
Proof.
  intros Hstep Hc key h. destruct Hstep as [s k Hk|s k err st Hk].
  - destruct (decide (k = key)) as [->|Hne].
    + rewrite lookup_insert_eq. by intros [= <-].
    + rewrite lookup_insert_ne by done. apply Hc.
  - destruct (decide (k = key)) as [->|Hne].
    + rewrite lookup_insert_eq. intros [= <-]. cbn [degraded failures failed].
      assert (Hold : degraded (getHandler s key)
                     = (FAILURE_THRESHOLD <=? failures (getHandler s key))%nat).
      { unfold getHandler. destruct (s !! key) as [h0|] eqn:Hl; cbn; [by apply (Hc key)|done]. }
      rewrite Hold. unfold FAILURE_THRESHOLD.
      destruct (3 <=? failures (getHandler s key) + 1)%nat eqn:E; [done|].
      apply Nat.leb_gt in E. apply Nat.leb_gt. lia.
    + rewrite lookup_insert_ne by done. apply Hc.
Qed.

Lemma health_steps_consistent keys state state' :
  rtc (health_step keys) state state' → consistent state → consistent state'.
Proof.
  induction 1 as [|s1 s2 s3 Hstep _ IH]; [done|].
  intros Hc. apply IH. by eapply health_step_consistent.
Qed.




Lemma resetTool_step keys toolName handlerName w :
  key_of toolName handlerName ∈ keys →
  rtc (health_step keys) (health_on_disk w)
    (health_on_disk (resetTool toolName handlerName w).2).
Proof. apply recordSuccess_step. Qed.

(* ------------------------------------------------------------------------- *)
(** ** Further properties of a call, for every world *)
(* ------------------------------------------------------------------------- *)

(** X1.  In one call the facade invokes handlers of its list only, each position
    at most once and in list order, whatever the handlers, the file system
    and the network do. *)
Theorem handlers_invoked_in_list_order {T} cfg toolName (handlers : list (Handler T)) args w :
  ∃ invoked,
    calls (log (withResilience cfg toolName handlers args w).2)
      = (rev invoked ++ calls (log w))%list
    ∧ invoked `sublist_of` map name handlers.
Proof.
  destruct (withResilience_effects cfg toolName handlers args w)
    as (invoked & Hc & Hsub & _).
  by exists invoked.
Qed.

(** X2.  A call POSTs at most one alert per handler it invokes; with no webhook
    URL it POSTs nothing and leaves the network untouched. *)
Theorem alerts_bounded_by_invocations {T} cfg toolName (handlers : list (Handler T)) args w :
  (length (posts (log (withResilience cfg toolName handlers args w).2))
     + length (calls (log w))
   ≤ length (posts (log w))
     + length (calls (log (withResilience cfg toolName handlers args w).2)))%nat
  ∧ (N8N_ALERT_WEBHOOK_URL cfg = "" →
       posts (log (withResilience cfg toolName handlers args w).2) = posts (log w)
       ∧ net (withResilience cfg toolName handlers args w).2 = net w).
Proof.
  destruct (withResilience_effects cfg toolName handlers args w)
    as (invoked & Hc & _ & _ & Hp & Hoff).
  split; [|exact Hoff].
  rewrite Hc, length_app, length_rev. lia.
Qed.

(** X3.  The module keeps [degraded] in step with the counter: if in every stored
    record [degraded] is [failures >= 3], the same holds after a call of the
    facade and after [resetTool], whatever fails on the way. *)
Theorem consistency_preserved {T} cfg toolName (handlers : list (Handler T)) args
    handlerName w :
  consistent (health_on_disk w) →
  consistent (health_on_disk (withResilience cfg toolName handlers args w).2)
  ∧ consistent (health_on_disk (resetTool toolName handlerName w).2).
Proof.
  intros Hc. split.
  - destruct (withResilience_effects cfg toolName handlers args w)
      as (invoked & _ & _ & Hsteps & _).
    by eapply health_steps_consistent.
  - eapply health_steps_consistent; [|exact Hc].
    apply (resetTool_step [key_of toolName handlerName]). apply list_elem_of_here.
Qed.


(* ------------------------------------------------------------------------- *)
(** ** Runs of the loop when writes go through and alerts settle *)
(* ------------------------------------------------------------------------- *)

Section Runs.
Context {T : Type}.
Variable cfg : Config.
Variable toolName : string.
Variable handlers : list (Handler T).
Variable args : T.


(** Degraded handlers that have a fallback are passed over without a trace. *)
Lemma loop_skip_prefix state pre : ∀ i rest lastError w,
  Forall (fun p => degraded (getHandler state (key_of toolName (name p))) = true) pre →
  (i + length pre ≤ length handlers - 1)%nat →
  loop cfg toolName handlers args state i (pre ++ rest) lastError w
    = loop cfg toolName handlers args state (i + length pre) rest lastError w.
Proof.
  induction pre as [|p pre IH]; intros i rest lastError w Hall Hlen.
  - cbn. by rewrite Nat.add_0_r.
  - inversion Hall as [|? ? Hp Hpre]; subst. cbn [length] in Hlen.
    cbn [app loop]. unfold bind at 1.
    rewrite iteration_skip by (done || lia).
    rewrite IH by (done || lia). f_equal. cbn [length]. lia.
Qed.


End Runs.

Lemma length_handlers_split {T} (pre : list (Handler T)) h post :
  (0 + length pre ≤ length (pre ++ h :: post) - 1)%nat.
Proof. rewrite length_app. cbn [length]. lia. Qed.

Lemma hasFallback_split {T} (pre : list (Handler T)) h post :
  (0 + length pre <? length (pre ++ h :: post) - 1)%nat = negb (bool_decide (post = [])).
Proof.
  rewrite length_app. cbn [length]. destruct post as [|q post]; cbn [length].
  - rewrite bool_decide_eq_true_2 by done. apply Nat.ltb_ge. lia.
  - rewrite bool_decide_eq_false_2 by done. apply Nat.ltb_lt. lia.
Qed.



(** X7.  The first handler invoked is the first one that is not degraded in the
    snapshot: the degraded ones before it are passed over; holds whatever
    fails afterwards. *)
Theorem first_invoked_is_first_healthy {T} cfg toolName
    (pre : list (Handler T)) h post args w :
  Forall (fun p => degraded (getHandler (health_on_disk w) (key_of toolName (name p))) = true)
    pre →
  degraded (getHandler (health_on_disk w) (key_of toolName (name h))) = false →
  ∃ later,
    calls (log (withResilience cfg toolName (pre ++ h :: post) args w).2)
      = (later ++ name h :: calls (log w))%list.
Proof.
  intros Hpre Hh.
  assert (Ha : allDegraded toolName (pre ++ h :: post) (health_on_disk w) = false).
  { apply not_true_is_false. intros Ha. apply allDegraded_Forall in Ha.
    apply Forall_app in Ha as [_ Ha]. inversion Ha; congruence. }
  rewrite withResilience_loop by done.
  rewrite loop_skip_prefix by (done || apply length_handlers_split).
  cbn [loop]. unfold bind at 1.
  pose proof (iteration_attempt_calls cfg toolName (pre ++ h :: post) args
                (health_on_disk w) (0 + length pre) h None w) as Hc.
  rewrite Hh in Hc. specialize (Hc eq_refl).
  destruct (iteration _ _ _ _ _ _ _ _ w) as [[[le'|r]|e|] w1]; cbn [snd] in *.
  2,3,4: exists []; exact Hc.
  destruct (loop_effects cfg toolName (pre ++ h :: post) args (health_on_disk w) post
              (S (0 + length pre)) le' w1) as (inv & Hc2 & _).
  exists (rev inv). by rewrite Hc2, Hc.
Qed.

(** X8.  A missing or unparsable health file reads as every handler being healthy:
    [isDegraded] answers false for every key, and a call invokes the first
    handler of its list first. *)
Theorem unreadable_file_means_healthy {T} cfg toolName handlerName
    (h : Handler T) rest args w :
  file w = Missing ∨ file w = Corrupt →
  isDegraded toolName handlerName w = (Normal false, w)
  ∧ ∃ later,
      calls (log (withResilience cfg toolName (h :: rest) args w).2)
        = (later ++ name h :: calls (log w))%list.
Proof.
  intros Hfile.
  assert (He : health_on_disk w = ∅).
  { unfold health_on_disk. by destruct Hfile as [->| ->]. }
  split.
  - rewrite isDegraded_eq, He. done.
  - assert (Hh : degraded (getHandler (health_on_disk w) (key_of toolName (name h))) = false)
      by (by rewrite He).
    rewrite withResilience_loop
      by (unfold allDegraded; cbn [forallb]; by rewrite Hh).
    cbn [loop]. unfold bind at 1.
    pose proof (iteration_attempt_calls cfg toolName (h :: rest) args
                  (health_on_disk w) 0 h None w) as Hc.
    rewrite Hh in Hc. specialize (Hc eq_refl).
    destruct (iteration _ _ _ _ _ _ _ _ w) as [[[le'|r]|e|] w1]; cbn [snd] in *.
    2,3,4: exists []; exact Hc.
    destruct (loop_effects cfg toolName (h :: rest) args (health_on_disk w) rest
                1 le' w1) as (inv & Hc2 & _).
    exists (rev inv). by rewrite Hc2, Hc.
Qed.

(* ------------------------------------------------------------------------- *)
(** ** Skipping, attempting and first success, in a call of the facade *)
(* ------------------------------------------------------------------------- *)

Section Split.
Context {T : Type}.
Variable cfg : Config.
Variable toolName : string.
Variable handlers : list (Handler T).
Variable args : T.



End Split.





(** The same when the handler resolves with a string and the write of
    [recordSuccess] throws: the handler is counted as failed and the caller
    gets the [ERROR] envelope with the message of the file system. *)
Lemma resolved_handler_write_fault :
  (withResilience cfg_alerting "search" sole_ok tt world_readonly).1
    = Normal {| content :=
        [error_text "search"
           (Some (ErrorObj "EACCES: permission denied, open '/data/tool-health.json'"))] |}
  ∧ failures (getHandler
                (health_on_disk (withResilience cfg_alerting "search" sole_ok tt
                                   world_readonly).2)
                "search:primary") = 1.
Proof. vm_compute. done. Qed.

(* ------------------------------------------------------------------------- *)
(** ** Keys *)
(* ------------------------------------------------------------------------- *)

Lemma string_app_assoc (s1 s2 s3 : string) : (s1 +:+ s2) +:+ s3 = s1 +:+ s2 +:+ s3.
Proof.
  induction s1 as [|c s1 IH]; [reflexivity|].
  change (String c ((s1 +:+ s2) +:+ s3) = String c (s1 +:+ s2 +:+ s3)).
  by rewrite IH.
Qed.

Lemma key_of_inj_handler toolName a b :
  key_of toolName a = key_of toolName b → a = b.
Proof.
  unfold key_of. intros H.
  apply (inj (String.app toolName)) in H.
  by apply (inj (String.app ":")) in H.
Qed.

Lemma key_of_colon_free t1 : ∀ t2 h1 h2,
  colon_free t1 = true → colon_free t2 = true →
  key_of t1 h1 = key_of t2 h2 → t1 = t2 ∧ h1 = h2.
Proof.
  unfold key_of.
  induction t1 as [|c t1 IH]; intros [|c2 t2] h1 h2 H1 H2 Heq; simpl in *.
  1-3: by (simplify_eq; cbn in * ).
  injection Heq as <- Heq.
  apply andb_true_iff in H1 as [_ H1]. apply andb_true_iff in H2 as [_ H2].
  destruct (IH t2 h1 h2 H1 H2 Heq) as [-> ->]. done.
Qed.

(** X9.  Health keys: for one tool, different handler names have different keys;
    tool names without a colon never share a key; a colon in a tool name
    makes two (tool, handler) pairs share one record, so that resetting one
    resets the other. *)
Theorem health_keys :
  (∀ toolName a b, key_of toolName a = key_of toolName b ↔ a = b)
  ∧ (∀ t1 t2 h1 h2, colon_free t1 = true → colon_free t2 = true →
       key_of t1 h1 = key_of t2 h2 → t1 = t2 ∧ h1 = h2)
  ∧ (∀ t a b w,
       key_of (t +:+ ":" +:+ a) b = key_of t (a +:+ ":" +:+ b)
       ∧ resetTool (t +:+ ":" +:+ a) b w = resetTool t (a +:+ ":" +:+ b) w
       ∧ isDegraded (t +:+ ":" +:+ a) b w = isDegraded t (a +:+ ":" +:+ b) w).
Proof.
  split; [|split].
  - intros toolName a b. split; [apply key_of_inj_handler|by intros ->].
  - intros t1 t2 h1 h2. apply key_of_colon_free.
  - intros t a b w.
    assert (Hk : key_of (t +:+ ":" +:+ a) b = key_of t (a +:+ ":" +:+ b)).
    { unfold key_of. by rewrite !string_app_assoc. }
    split; [exact Hk|]. unfold resetTool, isDegraded. by rewrite Hk.
Qed.

(* ------------------------------------------------------------------------- *)
(** ** Degraded until reset *)
(* ------------------------------------------------------------------------- *)

(** X10.  Once every handler of the list is degraded, every further call returns
    [DISABLED] and changes nothing, however many calls are made. *)
Theorem disabled_is_stable {T} cfg toolName (handlers : list (Handler T)) argss w :
  Forall (fun h => degraded (getHandler (health_on_disk w) (key_of toolName (name h))) = true)
    handlers →
  facade_calls cfg toolName handlers argss w
    = (Normal (replicate (length argss) {| content := [disabled_text toolName] |}), w).
Proof.
  intros Hall. apply allDegraded_Forall in Hall.
  induction argss as [|args argss IH]; [done|].
  cbn [facade_calls length replicate]. unfold bind at 1.
  rewrite withResilience_disabled by done.
  unfold bind. by rewrite IH.
Qed.

(** X11.  Manual reset re-enables: after [resetTool toolName (name h)] has written,
    the next call over a list in which the handlers before [h] are degraded
    (and named otherwise) invokes [h] first, whatever the state of the
    handlers after it. *)
Theorem reset_reenables_handler {T} cfg toolName
    (pre : list (Handler T)) h post args w :
  Forall (fun p => degraded (getHandler (health_on_disk w) (key_of toolName (name p))) = true
                   ∧ name p ≠ name h) pre →
  fs_faults w = [] →
  (resetTool toolName (name h) w).1 = Normal tt
  ∧ isDegraded toolName (name h) (resetTool toolName (name h) w).2
      = (Normal false, (resetTool toolName (name h) w).2)
  ∧ ∃ later,
      calls (log (withResilience cfg toolName (pre ++ h :: post) args
                    (resetTool toolName (name h) w).2).2)
        = (later ++ name h :: calls (log w))%list.
Proof.
  intros Hpre Hf. rewrite resetTool_ok by done. cbn [fst snd].
  set (w1 := saved _ w).
  assert (Hh : getHandler (health_on_disk w1) (key_of toolName (name h)) = healthy)
    by apply getHandler_insert_eq.
  split; [done|]. split; [by rewrite isDegraded_eq, Hh|].
  assert (Hpre1 : Forall (fun p => degraded (getHandler (health_on_disk w1)
                                     (key_of toolName (name p))) = true) pre).
  { eapply Forall_impl; [exact Hpre|]. intros p [Hd Hne]. cbn beta.
    subst w1. rewrite saved_health. unfold getHandler.
    rewrite lookup_insert_ne; [exact Hd|].
    intros Hk. apply key_of_inj_handler in Hk. congruence. }
  assert (Ha : allDegraded toolName (pre ++ h :: post) (health_on_disk w1) = false).
  { apply not_true_is_false. intros Ha. apply allDegraded_Forall in Ha.
    apply Forall_app in Ha as [_ Ha]. inversion Ha as [|? ? Hd _]; subst.
    rewrite Hh in Hd. done. }
  rewrite withResilience_loop by done.
  rewrite loop_skip_prefix by (done || apply length_handlers_split).
  cbn [loop]. unfold bind at 1.
  pose proof (iteration_attempt_calls cfg toolName (pre ++ h :: post) args
                (health_on_disk w1) (0 + length pre) h None w1) as Hc.
  rewrite Hh in Hc. specialize (Hc eq_refl).
  assert (Hc1 : calls (log w1) = calls (log w)) by apply saved_calls.
  rewrite Hc1 in Hc.
  destruct (iteration _ _ _ _ _ _ _ _ w1) as [[[le'|r]|e|] w2]; cbn [snd] in *.
  2,3,4: exists []; exact Hc.
  destruct (loop_effects cfg toolName (pre ++ h :: post) args (health_on_disk w1) post
              (S (0 + length pre)) le' w2) as (inv & Hc2 & _).
  exists (rev inv). by rewrite Hc2, Hc.
Qed.

(** X12.  Failures never clear the flag: from a degraded record, each of any number
    of further failures in a row returns [true], the record stays degraded
    and the counter keeps counting. *)
Theorem degraded_is_sticky toolName handlerName errors : ∀ w,
  fs_faults w = [] →
  degraded (getHandler (health_on_disk w) (key_of toolName handlerName)) = true →
  ∃ w', failures_in_a_row toolName handlerName errors w
          = (Normal (replicate (length errors) true), w')
        ∧ fs_faults w' = []
        ∧ degraded (getHandler (health_on_disk w') (key_of toolName handlerName)) = true
        ∧ failures (getHandler (health_on_disk w') (key_of toolName handlerName))
            = (failures (getHandler (health_on_disk w) (key_of toolName handlerName))
               + length errors)%nat.
Proof.
  induction errors as [|error errors IH]; intros w Hf Hd.
  - exists w. cbn. by rewrite Nat.add_0_r.
  - cbn [failures_in_a_row]. unfold bind at 1.
    rewrite recordFailure_ok by done. cbv zeta.
    set (key := key_of toolName handlerName) in *.
    set (h' := failed (getHandler (health_on_disk w) key) error (clock w (ticks w))).
    remember (saved (<[key := h']> (health_on_disk w)) (set_ticks (S (ticks w)) w)) as w1
      eqn:Hw1.
    assert (Hh1 : getHandler (health_on_disk w1) key = h')
      by (rewrite Hw1, saved_health; apply getHandler_insert_eq).
    assert (Hdeg : degraded h' = true).
    { subst h'. cbn [degraded failed]. rewrite Hd. by destruct (_ <=? _)%nat. }
    assert (Hf1 : fs_faults w1 = []) by (rewrite Hw1; by rewrite saved_faults).
    destruct (IH w1 Hf1) as (w' & Hrun & Hf' & Hd' & Hn').
    { by rewrite Hh1. }
    exists w'. unfold bind. rewrite Hrun. unfold ret. cbn [length replicate].
    rewrite Hdeg. split; [done|]. split; [done|]. split; [done|].
    rewrite Hn', Hh1. subst h'. cbn [failures failed]. lia.
Qed.

(* ------------------------------------------------------------------------- *)
(** ** The health store *)
(* ------------------------------------------------------------------------- *)

(** X13.  What [saveHealth] has written, [loadHealth] reads back, whether or not
    the data directory and the file existed before; the directory exists
    afterwards and is created only when it was absent.  With no fault ahead
    [saveHealth] returns. *)
Theorem save_then_load state w :
  ((saveHealth state w).1 = Normal tt →
     loadHealth (saveHealth state w).2 = (Normal state, (saveHealth state w).2)
     ∧ dir_exists (saveHealth state w).2 = true
     ∧ (In EvMkdir (log (saveHealth state w).2) ↔ dir_exists w = false ∨ In EvMkdir (log w)))
  ∧ (fs_faults w = [] → (saveHealth state w).1 = Normal tt).
Proof.
  split.
  - unfold saveHealth, ensureDataDir, existsSync_DATA_DIR, mkdirSync_DATA_DIR,
      writeFileSync_HEALTH_FILE, fs_call, bind, ret, loadHealth.
    destruct w as [d f faults n c t l]; cbn.
    destruct d, faults as [|[msg|] [|[msg'|] rest]]; cbn; intros Hn; try discriminate;
      (split; [done|split; [done|]]); intuition discriminate.
  - intros Hf. by rewrite saveHealth_ok.
Qed.

(* ------------------------------------------------------------------------- *)
(** ** Counters after a call *)
(* ------------------------------------------------------------------------- *)

Section Counters.
Context {T : Type}.
Variable cfg : Config.
Variable toolName : string.
Variable handlers : list (Handler T).
Variable args : T.

Lemma catch_block_disk (handler : Handler T) err w :
  fs_faults w = [] → fetches_settle w = true →
  ∃ w', catch_block cfg toolName handler err w = (Normal (Continue (Some err)), w')
        ∧ fs_faults w' = [] ∧ fetches_settle w' = true
        ∧ health_on_disk w'
            = <[key_of toolName (name handler) :=
                  failed (getHandler (health_on_disk w) (key_of toolName (name handler)))
                    (message_of err) (clock w (ticks w))]> (health_on_disk w)
        ∧ (degraded (failed (getHandler (health_on_disk w)
                       (key_of toolName (name handler))) (message_of err) (clock w (ticks w)))
             = false → posts (log w') = posts (log w)).
Proof.
  intros Hf Hs. unfold catch_block, bind.
  rewrite recordFailure_ok by done. cbv zeta.
  match goal with |- context [saved ?s ?w0] => remember (saved s w0) as w1 eqn:Hw1 end.
  assert (Hf1 : fs_faults w1 = []) by (rewrite Hw1; by rewrite saved_faults).
  assert (Hs1 : fetches_settle w1 = true)
    by (rewrite Hw1; unfold fetches_settle; by rewrite saved_net).
  assert (Hd1 : health_on_disk w1
                = <[key_of toolName (name handler) :=
                      failed (getHandler (health_on_disk w) (key_of toolName (name handler)))
                        (message_of err) (clock w (ticks w))]> (health_on_disk w))
    by (by rewrite Hw1).
  assert (Hp1 : posts (log w1) = posts (log w))
    by (rewrite Hw1; unfold saved; cbn; by destruct (dir_exists w)).
  destruct (degraded _) eqn:Hdeg.
  - destruct (alertN8n_settles cfg (key_of toolName (name handler))
                (message_of err) FAILURE_THRESHOLD w1 Hs1) as (w2 & -> & Hf2 & Hs2 & Hd2).
    exists w2. split; [done|]. split; [congruence|]. split; [done|].
    split; [congruence|done].
  - exists w1. done.
Qed.

Lemma iteration_rejects state i (handler : Handler T) lastError w e :
  degraded (getHandler state (key_of toolName (name handler)))
    && (i <? length handlers - 1)%nat = false →
  fn handler args = Rejects e →
  fs_faults w = [] → fetches_settle w = true →
  ∃ w', iteration cfg toolName handlers args state i handler lastError w
          = (Normal (Continue (Some e)), w')
        ∧ fs_faults w' = [] ∧ fetches_settle w' = true
        ∧ ∃ stamp,
            health_on_disk w'
              = <[key_of toolName (name handler) :=
                    failed (getHandler (health_on_disk w) (key_of toolName (name handler)))
                      (message_of e) stamp]> (health_on_disk w).
Proof.
  intros Hatt Hfn Hf Hs. rewrite iteration_attempt by done.
  unfold try_catch, bind at 1. unfold await_fn. rewrite Hfn. cbn [catch_clause].
  destruct (catch_block_disk handler e (emit (EvCall (name handler)) w) Hf Hs)
    as (w' & -> & Hf' & Hs' & Hd' & _).
  exists w'. split; [done|]. split; [done|]. split; [done|].
  eexists. exact Hd'.
Qed.

Lemma loop_rejecting_prefix state pre : ∀ i rest lastError w,
  NoDup (map name pre) →
  Forall (fun p => ∃ e, fn p args = Rejects e) pre →
  Forall (fun p => degraded (getHandler state (key_of toolName (name p)))
                   = degraded (getHandler (health_on_disk w) (key_of toolName (name p)))) pre →
  (i + length pre ≤ length handlers - 1)%nat →
  fs_faults w = [] → fetches_settle w = true →
  ∃ lastError' w',
    loop cfg toolName handlers args state i (pre ++ rest) lastError w
      = loop cfg toolName handlers args state (i + length pre) rest lastError' w'
    ∧ fs_faults w' = [] ∧ fetches_settle w' = true
    ∧ Forall (fun p => failures (getHandler (health_on_disk w') (key_of toolName (name p)))
                       = bumped toolName (health_on_disk w) p) pre
    ∧ (∀ key, key ∉ keys_of toolName pre →
         health_on_disk w' !! key = health_on_disk w !! key).
Proof.
  induction pre as [|p pre IH]; intros i rest lastError w Hnd Hrej Hsnap Hlen Hf Hs.
  - exists lastError, w. cbn. rewrite Nat.add_0_r. done.
  - inversion Hrej as [|? ? [e He] Hrej']; subst.
    inversion Hsnap as [|? ? Hsp Hsnap']; subst.
    apply NoDup_cons in Hnd as [Hnotin Hnd'].
    cbn [length] in Hlen. cbn [app loop]. unfold bind at 1.
    assert (Hkeys : ∀ q, q ∈ pre → key_of toolName (name q) ≠ key_of toolName (name p)).
    { intros q Hq Hk. apply key_of_inj_handler in Hk. apply Hnotin.
      rewrite <- Hk. apply list_elem_of_fmap. by exists q. }
    destruct (degraded (getHandler state (key_of toolName (name p)))) eqn:Hd.
    + rewrite iteration_skip by (done || lia).
      destruct (IH (S i) rest lastError w Hnd' Hrej' Hsnap' ltac:(lia) Hf Hs)
        as (le' & w' & Hrun & Hf' & Hs' & Hcnt & Hframe).
      exists le', w'. rewrite Hrun. split; [f_equal; cbn [length]; lia|].
      split; [done|]. split; [done|]. split.
      * constructor; [|done]. unfold bumped, getHandler.
        rewrite Hframe.
        -- fold (getHandler (health_on_disk w) (key_of toolName (name p))).
           rewrite <- Hsp. lia.
        -- intros Hin. apply list_elem_of_fmap in Hin as (q & Hk & Hq).
           by apply (Hkeys q Hq).
      * intros key Hk. apply Hframe. intros Hin. apply Hk. cbn.
        by apply list_elem_of_further.
    + destruct (iteration_rejects state i p lastError w e)
        as (w1 & Hit & Hf1 & Hs1 & stamp & Hd1); [by rewrite Hd|done..|].
      rewrite Hit.
      assert (Hsnap1 : Forall (fun q => degraded (getHandler state (key_of toolName (name q)))
                          = degraded (getHandler (health_on_disk w1)
                                        (key_of toolName (name q)))) pre).
      { apply Forall_forall. intros q Hq. rewrite Forall_forall in Hsnap'.
        rewrite (Hsnap' q Hq), Hd1. unfold getHandler.
        rewrite lookup_insert_ne; [done|]. intros Hk. by apply (Hkeys q Hq). }
      destruct (IH (S i) rest (Some e) w1 Hnd' Hrej' Hsnap1 ltac:(lia) Hf1 Hs1)
        as (le' & w' & Hrun & Hf' & Hs' & Hcnt & Hframe).
      exists le', w'. rewrite Hrun. split; [f_equal; cbn [length]; lia|].
      split; [done|]. split; [done|]. split.
      * constructor.
        -- unfold bumped. rewrite <- Hsp. unfold getHandler at 1.
           rewrite Hframe.
           ++ rewrite Hd1, lookup_insert_eq. cbn. lia.
           ++ intros Hin. apply list_elem_of_fmap in Hin as (q & Hk & Hq).
              by apply (Hkeys q Hq).
        -- apply Forall_forall. intros q Hq. rewrite Forall_forall in Hcnt.
           rewrite (Hcnt q Hq). unfold bumped. rewrite Hd1. unfold getHandler.
           rewrite lookup_insert_ne; [done|]. intros Hk. by apply (Hkeys q Hq).
      * intros key Hk. rewrite Hframe.
        -- rewrite Hd1. apply lookup_insert_ne. intros <-. apply Hk. cbn.
           apply list_elem_of_here.
        -- intros Hin. apply Hk. cbn. by apply list_elem_of_further.
Qed.

End Counters.

(** X14.  A call in which every handler rejects (names distinct, not all degraded):
    the counter of each handler before the last goes up by one unless the
    handler is degraded in the snapshot and passed over; the counter of the
    last handler goes up by one in any case; no other record changes. *)
Theorem all_reject_counters {T} cfg toolName (pre : list (Handler T)) last args w :
  NoDup (map name (pre ++ [last])) →
  allDegraded toolName (pre ++ [last]) (health_on_disk w) = false →
  Forall (fun p => ∃ e, fn p args = Rejects e) (pre ++ [last]) →
  fs_faults w = [] → fetches_settle w = true →
  ∃ env w',
    withResilience cfg toolName (pre ++ [last]) args w = (Normal env, w')
    ∧ Forall (fun p => failures (getHandler (health_on_disk w') (key_of toolName (name p)))
                       = bumped toolName (health_on_disk w) p) pre
    ∧ failures (getHandler (health_on_disk w') (key_of toolName (name last)))
        = (failures (getHandler (health_on_disk w) (key_of toolName (name last))) + 1)%nat
    ∧ (∀ key, key ∉ keys_of toolName (pre ++ [last]) →
         health_on_disk w' !! key = health_on_disk w !! key).
Proof.
  intros Hnd Ha Hrej Hf Hs.
  apply Forall_app in Hrej as [Hrej Hlast].
  inversion Hlast as [|? ? [e He] _]; subst.
  rewrite fmap_app in Hnd. apply NoDup_app in Hnd as (Hnd & Hdisj & _).
  assert (Hkeys : ∀ q, q ∈ pre → key_of toolName (name q) ≠ key_of toolName (name last)).
  { intros q Hq Hk. apply key_of_inj_handler in Hk.
    apply (Hdisj (name q)); [apply list_elem_of_fmap; by exists q|].
    rewrite Hk. cbn. apply list_elem_of_here. }
  assert (Hlastkey : key_of toolName (name last) ∉ keys_of toolName pre).
  { intros Hin. apply list_elem_of_fmap in Hin as (q & Hk & Hq).
    by apply (Hkeys q Hq). }
  rewrite withResilience_loop by done.
  destruct (loop_rejecting_prefix cfg toolName (pre ++ [last]) args (health_on_disk w)
              pre 0 [last] None w Hnd Hrej) as (le' & w1 & -> & Hf1 & Hs1 & Hcnt & Hframe);
    [by apply Forall_forall|apply length_handlers_split|done..|].
  assert (Hatt : degraded (getHandler (health_on_disk w) (key_of toolName (name last)))
                   && (0 + length pre <? length (pre ++ [last]) - 1)%nat = false).
  { rewrite hasFallback_split. rewrite bool_decide_eq_true_2 by done. apply andb_false_r. }
  destruct (iteration_rejects cfg toolName (pre ++ [last]) args (health_on_disk w)
              (0 + length pre) last le' w1 e Hatt He Hf1 Hs1)
    as (w2 & Hit & _ & _ & stamp & Hd2).
  cbn [loop]. unfold bind at 1. rewrite Hit.
  eexists _, w2. split; [reflexivity|]. split; [|split].
  - apply Forall_forall. intros q Hq. rewrite Forall_forall in Hcnt.
    rewrite <- (Hcnt q Hq), Hd2. unfold getHandler.
    rewrite lookup_insert_ne; [done|]. intros Hk. by apply (Hkeys q Hq).
  - rewrite Hd2, getHandler_insert_eq. cbn [failures failed].
    unfold getHandler. by rewrite Hframe.
  - intros key Hk. rewrite Hd2, lookup_insert_ne.
    + apply Hframe. intros Hin. apply Hk. unfold keys_of. rewrite fmap_app.
      apply elem_of_app. by left.
    + intros <-. apply Hk. unfold keys_of. rewrite fmap_app.
      apply elem_of_app. right. cbn. apply list_elem_of_here.
Qed.

(** X15.  A handler that resolves with a value [JSON.stringify] rejects is counted
    as failed, but only after [recordSuccess] has reset its record: whatever
    the record was, it then reads [failures = 1], not degraded, and no alert
    is POSTed, so such a handler never reaches the threshold. *)
Theorem unserialisable_result_never_degrades {T} cfg toolName (handlers : list (Handler T))
    args state i handler lastError w reason :
  degraded (getHandler state (key_of toolName (name handler)))
    && (i <? length handlers - 1)%nat = false →
  fn handler args = Resolves (VCyclic reason) →
  fs_faults w = [] → fetches_settle w = true →
  ∃ w' stamp,
    iteration cfg toolName handlers args state i handler lastError w
      = (Normal (Continue (Some (ErrorObj reason))), w')
    ∧ getHandler (health_on_disk w') (key_of toolName (name handler))
        = {| failures := 1; degraded := false;
             lastError := Some reason; lastFailure := Some stamp |}
    ∧ posts (log w') = posts (log w).
Proof.
  intros Hatt Hfn Hf Hs. rewrite iteration_attempt by done.
  unfold try_catch, bind at 1. unfold await_fn. rewrite Hfn.
  unfold bind. rewrite recordSuccess_ok by done. cbn [render]. unfold throw.
  cbn [catch_clause].
  match goal with |- context [saved ?s ?w0] => remember (saved s w0) as w2 eqn:Hw2 end.
  assert (Hf2 : fs_faults w2 = []) by (rewrite Hw2; by rewrite saved_faults).
  assert (Hs2 : fetches_settle w2 = true)
    by (rewrite Hw2; unfold fetches_settle; by rewrite saved_net).
  assert (Hh2 : getHandler (health_on_disk w2) (key_of toolName (name handler)) = healthy)
    by (rewrite Hw2, saved_health; apply getHandler_insert_eq).
  assert (Hp2 : posts (log w2) = posts (log w))
    by (rewrite Hw2; unfold saved; cbn; by destruct (dir_exists w)).
  destruct (catch_block_disk cfg toolName handler (ErrorObj reason) w2 Hf2 Hs2)
    as (w' & -> & _ & _ & Hd' & Hp').
  rewrite Hh2 in Hd', Hp'.
  exists w', (clock w2 (ticks w2)). split; [done|]. split.
  - rewrite Hd'. apply getHandler_insert_eq.
  - rewrite Hp' by done. exact Hp2.
Qed.

(* ------------------------------------------------------------------------- *)
(** ** CSV: what is written is read back *)
(* ------------------------------------------------------------------------- *)

Lemma app_String c (s t : string) : String c s +:+ t = String c (s +:+ t).
Proof. reflexivity. Qed.

Lemma app_empty_l (t : string) : "" +:+ t = t.
Proof. reflexivity. Qed.

Lemma app_empty_r (s : string) : s +:+ "" = s.
Proof. induction s as [|c s IH]; [done|]. by rewrite app_String, IH. Qed.

Lemma parse_comma rest result current :
  parse_from ("," +:+ rest) result current false
    = parse_from rest (result ++ [current]) "" false.
Proof. reflexivity. Qed.

(** Inside quotes: the doubled body, the closing quote, then a tail that does
    not start with a quote. *)
Lemma parse_quoted_body val : ∀ tail result current,
  (tail = "" ∨ ∃ c tail', tail = String c tail' ∧ Ascii.eqb c quote_char = false) →
  parse_from (double_quotes val +:+ dquote +:+ tail) result current true
    = parse_from tail result (current +:+ val) false.
Proof.
  induction val as [|c val IH]; intros tail result current Htail.
  - cbn [double_quotes]. rewrite app_empty_l, app_empty_r.
    unfold dquote. rewrite app_String, app_empty_l. cbn [parse_from].
    change (Ascii.eqb (Ascii.ascii_of_nat 34) quote_char) with true. cbv iota.
    destruct Htail as [->|(c & tail' & -> & Hc)]; [done|]. by rewrite Hc.
  - cbn [double_quotes]. destruct (Ascii.eqb c quote_char) eqn:Hc.
    + rewrite !app_String. cbn [parse_from].
      change (Ascii.eqb quote_char quote_char) with true. cbv iota.
      rewrite IH by done. f_equal.
      apply Ascii.eqb_eq in Hc. subst c. unfold dquote.
      rewrite string_app_assoc. reflexivity.
    + rewrite app_String. cbn [parse_from]. rewrite Hc.
      rewrite IH by done. f_equal. rewrite string_app_assoc. reflexivity.
Qed.

Lemma parse_escaped val tail result current :
  (tail = "" ∨ ∃ c tail', tail = String c tail' ∧ Ascii.eqb c quote_char = false) →
  parse_from (csvEscape val +:+ tail) result current false
    = parse_from tail result (current +:+ val) false.
Proof.
  intros Htail. unfold csvEscape. rewrite !string_app_assoc.
  unfold dquote at 1. rewrite app_String, app_empty_l. cbn [parse_from].
  change (Ascii.eqb (Ascii.ascii_of_nat 34) quote_char) with true. cbv iota.
  by apply parse_quoted_body.
Qed.

Lemma parse_plain text : ∀ tail result current,
  plain text = true →
  parse_from (text +:+ tail) result current false
    = parse_from tail result (current +:+ text) false.
Proof.
  induction text as [|c text IH]; intros tail result current Hp.
  - by rewrite app_empty_l, app_empty_r.
  - cbn [plain] in Hp. apply andb_true_iff in Hp as [Hp Hrest].
    apply andb_true_iff in Hp as [Hq Hc].
    apply negb_true_iff in Hq. apply negb_true_iff in Hc.
    rewrite app_String. cbn [parse_from]. rewrite Hq, Hc.
    rewrite IH by done. f_equal. rewrite string_app_assoc. reflexivity.
Qed.

Lemma parse_cell c tail result :
  cell_ok c = true →
  (tail = "" ∨ ∃ ch tail', tail = String ch tail' ∧ Ascii.eqb ch quote_char = false) →
  parse_from (cell_text c +:+ tail) result "" false
    = parse_from tail result (cell_value c) false.
Proof.
  intros Hok Htail. destruct c as [text|val]; cbn [cell_text cell_value cell_ok] in *.
  - by rewrite parse_plain.
  - by rewrite parse_escaped.
Qed.

Lemma parse_cells cells : ∀ c result,
  Forall (fun c => cell_ok c = true) (c :: cells) →
  parse_from (String.concat "," (map cell_text (c :: cells))) result "" false
    = (result ++ map cell_value (c :: cells))%list.
Proof.
  induction cells as [|c' cells IH]; intros c result Hok.
  - cbn [map String.concat]. inversion Hok; subst.
    rewrite <- (app_empty_r (cell_text c)).
    rewrite parse_cell by (done || by left). reflexivity.
  - inversion Hok as [|? ? Hc Hrest]; subst.
    change (String.concat "," (map cell_text (c :: c' :: cells)))
      with (cell_text c +:+ "," +:+ String.concat "," (map cell_text (c' :: cells))).
    rewrite parse_cell; [|done|right; by eexists _, _].
    rewrite parse_comma.
    rewrite IH by done. cbn [map]. by rewrite <- app_assoc.
Qed.

(** X16.  Round trip: a line of fields written through [csvEscape] and joined with
    commas is read back by [parseCSVLine] as the same fields, whatever the
    fields contain (quotes, commas, nothing). *)
Theorem csv_escape_parse_roundtrip (field : string) (fields : list string) :
  parseCSVLine (csvEscape field) = [field]
  ∧ parseCSVLine (String.concat "," (map csvEscape (field :: fields))) = field :: fields.
Proof.
  assert (Hall : ∀ fs : list string,
            Forall (fun c => cell_ok c = true) (map Escaped fs)).
  { intros fs. apply Forall_forall. intros c Hc.
    apply list_elem_of_fmap in Hc as (v & -> & _). done. }
  assert (Hgen : ∀ f fs, parseCSVLine (String.concat "," (map csvEscape (f :: fs))) = f :: fs).
  { intros f fs. unfold parseCSVLine.
    pose proof (parse_cells (map Escaped fs) (Escaped f) [] (Hall (f :: fs))) as H.
    change (Escaped f :: map Escaped fs) with (map Escaped (f :: fs)) in H.
    rewrite !map_map in H. cbn [cell_text cell_value app] in H.
    rewrite map_id in H. exact H. }
  split; [apply (Hgen field [])|apply Hgen].
Qed.

(** X17.  A row as [findOutliersHandler] writes it, some fields interpolated as
    they are and some through [csvEscape]: when the unescaped fields contain
    neither a quote nor a comma, [parseCSVLine] returns the values written,
    field by field. *)
Theorem csv_row_read_back (c : Cell) (cells : list Cell) :
  Forall (fun c => cell_ok c = true) (c :: cells) →
  parseCSVLine (String.concat "," (map cell_text (c :: cells)))
    = map cell_value (c :: cells).
Proof. intros Hok. unfold parseCSVLine. by rewrite parse_cells. Qed.

Lemma parse_from_length n : ∀ line result current inQuotes,
  (String.length line ≤ n)%nat →
  (length result + 1 ≤ length (parse_from line result current inQuotes)
   ∧ length (parse_from line result current inQuotes)
       ≤ length result + 1 + commas line)%nat.
Proof.
  induction n as [|n IH]; intros line result current inQuotes Hn.
  - destruct line as [|ch rest]; [|cbn in Hn; lia].
    cbn. rewrite length_app. cbn. lia.
  - destruct line as [|ch rest].
    { cbn. rewrite length_app. cbn. lia. }
    cbn [String.length] in Hn. cbn [parse_from commas].
    destruct inQuotes.
    + destruct (Ascii.eqb ch quote_char) eqn:Hq.
      * assert (Hc : Ascii.eqb ch comma_char = false).
        { apply Ascii.eqb_eq in Hq. by subst ch. }
        rewrite Hc. destruct rest as [|next rest'].
        -- apply (IH "" result current false). cbn. lia.
        -- destruct (Ascii.eqb next quote_char).
           ++ cbn [String.length] in Hn.
              destruct (IH rest' result (current +:+ dquote) true ltac:(lia)) as [H1 H2].
              cbn [commas]. lia.
           ++ destruct (IH (String next rest') result current false ltac:(lia)) as [H1 H2].
              lia.
      * destruct (IH rest result (current +:+ String ch "") true ltac:(lia)) as [H1 H2].
        lia.
    + destruct (Ascii.eqb ch quote_char) eqn:Hq.
      * destruct (IH rest result current true ltac:(lia)) as [H1 H2]. lia.
      * destruct (Ascii.eqb ch comma_char) eqn:Hc.
        -- destruct (IH rest (result ++ [current])%list "" false ltac:(lia)) as [H1 H2].
           rewrite length_app in H1, H2. cbn [length] in H1, H2. lia.
        -- destruct (IH rest result (current +:+ String ch "") false ltac:(lia)) as [H1 H2].
           lia.
Qed.

Lemma parse_unclosed text : ∀ result current,
  quote_free text = true →
  parse_from text result current true = (result ++ [current +:+ text])%list.
Proof.
  induction text as [|c text IH]; intros result current Hq.
  - cbn. by rewrite app_empty_r.
  - cbn [quote_free] in Hq. apply andb_true_iff in Hq as [Hc Hq].
    apply negb_true_iff in Hc. cbn [parse_from]. rewrite Hc.
    rewrite IH by done. rewrite string_app_assoc. reflexivity.
Qed.

(** X18.  [parseCSVLine] never returns an empty list of fields and never more
    fields than commas plus one; a quote that is opened and never closed
    takes the rest of the line, commas included, as one field. *)
Theorem parseCSVLine_fields (line : string) :
  (1 ≤ length (parseCSVLine line) ≤ 1 + commas line)%nat
  ∧ (quote_free line = true → parseCSVLine (dquote +:+ line) = [line]).
Proof.
  split.
  - unfold parseCSVLine.
    destruct (parse_from_length (String.length line) line [] "" false) as [H1 H2]; [lia|].
    cbn [length] in H1, H2. lia.
  - intros Hq. unfold parseCSVLine, dquote. rewrite app_String, app_empty_l.
    cbn [parse_from].
    change (Ascii.eqb (Ascii.ascii_of_nat 34) quote_char) with true. cbv iota.
    by rewrite parse_unclosed.
Qed.

(* ------------------------------------------------------------------------- *)
(** ** trimResponse *)
(* ------------------------------------------------------------------------- *)

Section TrimFacts.
Context {N : Type}.
Variable nonzero : N -> bool.

(** Induction on a JSON value, with the hypothesis for every item of an array
    and every value of an object. *)
Lemma Json_induction (P : Json N → Prop) :
  P JNull → (∀ b, P (JBool b)) → (∀ n, P (JNumber n)) → (∀ s, P (JString s)) →
  (∀ items, Forall P items → P (JArray items)) →
  (∀ entries, Forall (fun e => P e.2) entries → P (JObject entries)) →
  ∀ data, P data.
Proof.
  intros Hnull Hbool Hnum Hstr Harr Hobj.
  fix IH 1. intros [ |b|n|s|items|entries].
  - exact Hnull.
  - apply Hbool.
  - apply Hnum.
  - apply Hstr.
  - apply Harr. induction items as [|x items IHitems]; constructor; [apply IH|exact IHitems].
  - apply Hobj. induction entries as [|[k v] entries IHentries]; constructor;
      [apply IH|exact IHentries].
Qed.

Lemma is_object_trim (data : Json N) :
  is_object (trimResponse nonzero data) = is_object data.
Proof. by destruct data. Qed.

Lemma keep_thumbs_cases (thumbs : Json N) :
  keep_thumbs nonzero thumbs = []
  ∨ ∃ x, keep_thumbs nonzero thumbs = [("medium", x)] ∧ truthy nonzero (Some x) = true.
Proof.
  unfold keep_thumbs, KEEP_THUMBS. cbn [omap list_omap].
  destruct (get_prop thumbs "medium") as [x|]; [|by left].
  destruct (truthy nonzero (Some x)) eqn:Ht; [|by left].
  right. by exists x.
Qed.

Lemma trim_is_trimmed (data : Json N) :
  is_trimmed nonzero (trimResponse nonzero data) = true.
Proof.
  induction data as [ |b|n|s|items IH|entries IH] using Json_induction; try done.
  - cbn [trimResponse is_trimmed]. induction IH as [|x items Hx _ IHitems]; [done|].
    cbn [map forallb]. by rewrite Hx, IHitems.
  - cbn [trimResponse is_trimmed].
    induction IH as [|[key value] entries Hv _ IHentries]; [done|].
    cbn [omap list_omap trim_entry]. cbn [snd] in Hv.
    fold (omap (trim_entry nonzero (trimResponse nonzero)) entries).
    destruct (strip_has key) eqn:Hstrip; [exact IHentries|].
    destruct (String.eqb key "thumbnails" && is_object value) eqn:Hthumb.
    + destruct (keep_thumbs_cases value) as [->|(x & -> & Hx)]; [exact IHentries|].
      cbn [forallb entry_trimmed]. rewrite Hstrip, IHentries.
      apply andb_true_iff in Hthumb as [Hk _]. rewrite Hk.
      apply String.eqb_eq in Hk. subst key. rewrite Hx. reflexivity.
    + destruct (String.eqb key "__proto__") eqn:Hproto; [exact IHentries|].
      cbn [forallb entry_trimmed]. rewrite Hstrip, Hproto, IHentries.
      by rewrite is_object_trim, Hthumb, Hv.
Qed.

Lemma trimmed_fixed (data : Json N) :
  is_trimmed nonzero data = true → trimResponse nonzero data = data.
Proof.
  induction data as [ |b|n|s|items IH|entries IH] using Json_induction; try done.
  - cbn [trimResponse is_trimmed]. intros Ht. f_equal.
    induction IH as [|x items Hx _ IHitems]; [done|].
    cbn [forallb] in Ht. apply andb_true_iff in Ht as [Ht1 Ht2].
    cbn [map]. by rewrite Hx, IHitems.
  - cbn [trimResponse is_trimmed]. intros Ht. f_equal.
    induction IH as [|[key value] entries Hv _ IHentries]; [done|].
    cbn [forallb entry_trimmed] in Ht. cbn [snd] in Hv.
    apply andb_true_iff in Ht as [Ht Hrest].
    apply andb_true_iff in Ht as [Ht Hval].
    apply andb_true_iff in Ht as [Hstrip Hproto].
    apply negb_true_iff in Hstrip. apply negb_true_iff in Hproto.
    cbn [omap list_omap trim_entry].
    fold (omap (trim_entry nonzero (trimResponse nonzero)) entries).
    rewrite Hstrip, IHentries by done.
    destruct (String.eqb key "thumbnails" && is_object value) eqn:Hthumb.
    + destruct value as [ |b|n|s|items|[|[size x] [|e es]]]; try discriminate.
      apply andb_true_iff in Hval as [Hsize Hx].
      apply String.eqb_eq in Hsize. subst size.
      unfold keep_thumbs, KEEP_THUMBS. cbn [omap list_omap get_prop get_entry].
      change (String.eqb "medium" "medium") with true. cbv iota. by rewrite Hx.
    + by rewrite Hproto, Hv.
Qed.

Lemma trimmed_keys (data : Json N) :
  is_trimmed nonzero data = true →
  ∀ key, key ∈ keys_in data → strip_has key = false ∧ key ≠ "__proto__".
Proof.
  induction data as [ |b|n|s|items IH|entries IH] using Json_induction;
    try (intros _ key Hin; by apply elem_of_nil in Hin).
  - cbn [keys_in is_trimmed]. intros Ht key Hin.
    induction IH as [|x items Hx _ IHitems]; [by apply elem_of_nil in Hin|].
    cbn [forallb] in Ht. apply andb_true_iff in Ht as [Ht1 Ht2].
    cbn [flat_map] in Hin. apply elem_of_app in Hin as [Hin|Hin]; [by apply Hx|by apply IHitems].
  - cbn [keys_in is_trimmed]. intros Ht key Hin.
    induction IH as [|[k value] entries Hv _ IHentries]; [by apply elem_of_nil in Hin|].
    cbn [forallb entry_trimmed] in Ht. cbn [snd] in Hv.
    apply andb_true_iff in Ht as [Ht Hrest].
    apply andb_true_iff in Ht as [Ht Hval].
    apply andb_true_iff in Ht as [Hstrip Hproto].
    apply negb_true_iff in Hstrip. apply negb_true_iff in Hproto.
    cbn [flat_map entry_keys] in Hin.
    apply elem_of_app in Hin as [Hin|Hin]; [|by apply IHentries].
    apply elem_of_cons in Hin as [->|Hin].
    + split; [done|]. intros ->. by rewrite String.eqb_refl in Hproto.
    + destruct (String.eqb k "thumbnails" && is_object value);
        [by apply elem_of_nil in Hin|by apply Hv].
Qed.

End TrimFacts.

(** X19.  [trimResponse] is idempotent: trimming a trimmed response changes
    nothing. *)
Theorem trimResponse_idempotent {N} (nonzero : N -> bool) (data : Json N) :
  trimResponse nonzero (trimResponse nonzero data) = trimResponse nonzero data.
Proof. apply trimmed_fixed, trim_is_trimmed. Qed.

(** X20.  No key of [STRIP_KEYS] is left in any object of the result, at any depth,
    the inside of a kept [thumbnails] object apart (it is copied as it is);
    nor is [__proto__]. *)
Theorem trimResponse_strips {N} (nonzero : N -> bool) (data : Json N) (key : string) :
  key ∈ keys_in (trimResponse nonzero data) →
  (key ∉ STRIP_KEYS) ∧ (key ≠ "__proto__").
Proof.
  intros Hin.
  destruct (trimmed_keys nonzero _ (trim_is_trimmed nonzero data) key Hin) as [Hs Hp].
  split; [|done]. intros Hk. unfold strip_has in Hs.
  assert (He : existsb (String.eqb key) STRIP_KEYS = true).
  { apply existsb_exists. exists key.
    split; [by apply list_elem_of_In|apply String.eqb_refl]. }
  congruence.
Qed.

(* ------------------------------------------------------------------------- *)
(** ** The further statements at concrete inputs *)
(* ------------------------------------------------------------------------- *)

Lemma alerts_bounded_by_invocations_witness :
  N8N_ALERT_WEBHOOK_URL cfg_silent = ""
  ∧ posts (log (withResilience cfg_silent "search" sole_failing tt world_webhook_silent).2)
      = posts (log world_webhook_silent).
Proof.
  split; [reflexivity|].
  exact (proj1 (proj2 (alerts_bounded_by_invocations cfg_silent "search" sole_failing tt
                         world_webhook_silent) eq_refl)).
Defined.

Lemma consistency_preserved_witness :
  consistent (health_on_disk
    (withResilience cfg_alerting "search" tiers_all_reject tt
       (world_with (Stored suggest_degraded))).2).
Proof.
  apply (consistency_preserved cfg_alerting "search" tiers_all_reject tt "primary"
           (world_with (Stored suggest_degraded))).
  assert (Hall : map_Forall
            (fun (_ : string) h => degraded h = (FAILURE_THRESHOLD <=? failures h)%nat)
            suggest_degraded)
    by (apply (bool_decide_unpack _); vm_compute; exact I).
  exact Hall.
Defined.




Lemma first_invoked_is_first_healthy_witness :
  ∃ later,
    calls (log (withResilience cfg_alerting "search" three_tiers tt
                  (world_with (Stored suggest_degraded))).2)
      = (later ++ ["dataApiSearch"])%list.
Proof.
  apply (first_invoked_is_first_healthy cfg_alerting "search"
           [always "suggestEndpoint" (Resolves (VString "ok"))]
           (always "dataApiSearch" (Resolves (VJson "[]")))
           [always "webScrape" (Rejects (ErrorObj "layout changed"))]
           tt (world_with (Stored suggest_degraded))).
  - repeat constructor.
  - reflexivity.
Defined.

Lemma unreadable_file_means_healthy_witness :
  isDegraded "search" "primary" (world_with Corrupt) = (Normal false, world_with Corrupt).
Proof.
  apply (proj1 (unreadable_file_means_healthy cfg_alerting "search" "primary"
                  (always "primary" (Resolves (VString "ok"))) [] tt (world_with Corrupt)
                  (or_intror eq_refl))).
Defined.

Lemma health_keys_witness :
  colon_free "getDemographics" = true
  ∧ ("getDemographics" = "getDemographics" ∧ "analyticsApi" = "analyticsApi").
Proof.
  split; [reflexivity|].
  apply (proj1 (proj2 health_keys) "getDemographics" "getDemographics"
           "analyticsApi" "analyticsApi"); reflexivity.
Defined.

Lemma disabled_is_stable_witness :
  facade_calls cfg_alerting "search" three_tiers [tt; tt; tt]
    (world_with (Stored three_degraded))
  = (Normal (replicate 3 {| content := [disabled_text "search"] |}),
     world_with (Stored three_degraded)).
Proof.
  apply (disabled_is_stable cfg_alerting "search" three_tiers [tt; tt; tt]
           (world_with (Stored three_degraded))).
  repeat constructor.
Defined.

Lemma reset_reenables_handler_witness :
  ∃ later,
    calls (log (withResilience cfg_alerting "search" three_tiers tt
                  (resetTool "search" "dataApiSearch"
                     (world_with (Stored three_degraded))).2).2)
      = (later ++ ["dataApiSearch"])%list.
Proof.
  destruct (reset_reenables_handler cfg_alerting "search"
              [always "suggestEndpoint" (Resolves (VString "ok"))]
              (always "dataApiSearch" (Resolves (VJson "[]")))
              [always "webScrape" (Rejects (ErrorObj "layout changed"))]
              tt (world_with (Stored three_degraded))) as (_ & _ & Hfirst).
  - repeat constructor. discriminate.
  - reflexivity.
  - exact Hfirst.
Defined.

Lemma degraded_is_sticky_witness :
  ∃ w', failures_in_a_row "search" "primary" ["e4"; "e5"]
          (world_with (Stored {[ "search:primary" := degraded_record ]}))
        = (Normal [true; true], w')
      ∧ failures (getHandler (health_on_disk w') "search:primary") = 5.
Proof.
  destruct (degraded_is_sticky "search" "primary" ["e4"; "e5"]
              (world_with (Stored {[ "search:primary" := degraded_record ]})))
    as (w' & Hrun & _ & _ & Hn).
  - reflexivity.
  - vm_compute. reflexivity.
  - exists w'. split; [exact Hrun|exact Hn].
Defined.

Lemma save_then_load_witness :
  fs_faults (world_with Missing) = []
  ∧ loadHealth (saveHealth three_degraded (world_with Missing)).2
      = (Normal three_degraded, (saveHealth three_degraded (world_with Missing)).2).
Proof.
  split; [reflexivity|].
  destruct (save_then_load three_degraded (world_with Missing)) as [Hload Hret].
  exact (proj1 (Hload (Hret eq_refl))).
Defined.

Lemma all_reject_counters_witness :
  ∃ env w',
    withResilience cfg_alerting "search" tiers_all_reject tt
      (world_with (Stored suggest_degraded)) = (Normal env, w')
    ∧ failures (getHandler (health_on_disk w') "search:webScrape") = 1.
Proof.
  destruct (all_reject_counters cfg_alerting "search"
              [always "suggestEndpoint" (Rejects (ErrorObj "Suggest endpoint returned 503"));
               always "dataApiSearch" (Rejects (ErrorObj "quota exceeded"))]
              (always "webScrape" (Rejects (ErrorObj "layout changed")))
              tt (world_with (Stored suggest_degraded)))
    as (env & w' & Hrun & _ & Hlast & _).
  - apply (bool_decide_unpack _). vm_compute. exact I.
  - reflexivity.
  - repeat constructor; eexists; reflexivity.
  - reflexivity.
  - reflexivity.
  - exists env, w'. split; [exact Hrun|exact Hlast].
Defined.

Lemma unserialisable_result_never_degrades_witness :
  ∃ w' stamp,
    iteration cfg_alerting "findOutlierChannels" [bigint_handler] tt
      {[ "findOutlierChannels:findOutliers" := two_failures ]} 0 bigint_handler None
      (world_with (Stored {[ "findOutlierChannels:findOutliers" := two_failures ]}))
    = (Normal (Continue (Some (ErrorObj "Do not know how to serialize a BigInt"))), w')
    ∧ getHandler (health_on_disk w') "findOutlierChannels:findOutliers"
        = {| failures := 1; degraded := false;
             lastError := Some "Do not know how to serialize a BigInt";
             lastFailure := Some stamp |}.
Proof.
  destruct (unserialisable_result_never_degrades cfg_alerting "findOutlierChannels"
              [bigint_handler] tt {[ "findOutlierChannels:findOutliers" := two_failures ]}
              0 bigint_handler None
              (world_with (Stored {[ "findOutlierChannels:findOutliers" := two_failures ]}))
              "Do not know how to serialize a BigInt")
    as (w' & stamp & Hrun & Hrec & _).
  - vm_compute. reflexivity.
  - reflexivity.
  - reflexivity.
  - reflexivity.
  - exists w', stamp. split; [exact Hrun|exact Hrec].
Defined.

Lemma csv_row_read_back_witness :
  parseCSVLine (String.concat "," (map cell_text sample_row))
    = ["2026-02-25T00:00:00.000Z"; "cooking, baking"; "UC123";
       "The " +:+ dquote +:+ "Best" +:+ dquote +:+ " Channel"].
Proof.
  apply (csv_row_read_back (Raw "2026-02-25T00:00:00.000Z")
           [Escaped "cooking, baking"; Raw "UC123";
            Escaped ("The " +:+ dquote +:+ "Best" +:+ dquote +:+ " Channel")]).
  repeat constructor.
Defined.

Lemma parseCSVLine_fields_witness :
  quote_free "cooking, baking" = true
  ∧ parseCSVLine (dquote +:+ "cooking, baking") = ["cooking, baking"].
Proof.
  split; [reflexivity|].
  apply (proj2 (parseCSVLine_fields "cooking, baking")). reflexivity.
Defined.

Lemma trimResponse_strips_witness :
  ("items" ∉ STRIP_KEYS) ∧ ("items" ≠ "__proto__").
Proof.
  apply (trimResponse_strips nonzeroZ sample_response "items").
  apply (bool_decide_unpack _). vm_compute. exact I.
Defined.


